(** * Tag All+ : the tagging script of the JS Toolkit, embedded in Rocq

    Source: [JS Toolkit.tab/02 - Tag.Panel/Tag All+.pushbutton/script.py].

    The script drives a modelling host (documents, views, elements, tags,
    one transaction) and a dialog toolkit.  The embedding keeps the script's
    own functions as executable definitions over
    - a [Host] record: what the host, the dialogs and the configuration
      module answer when the script calls them (each answer is an
      [outcome]: a value or a raised Python exception), and
    - a [World] record: what the script mutates (the document's tags, the
      transaction, the module-level [ignored_tag_types] and
      [element_cache]) together with the chronicle of the calls it made.

    Python's [try/except Exception] is [try_except]: it catches the class
    [Exception] and lets [SystemExit] through, as in the language. *)

From Stdlib Require Import ZArith NArith QArith Floats List String Ascii Bool Lia Sorted.
From stdpp Require Import base decidable option list gmap sets strings.

Set Warnings "-clear-no-such-hyp".

Open Scope string_scope.
Open Scope list_scope.
Open Scope Z_scope.

(** ** Exceptions and outcomes *)

(** The two classes the script tells apart: [except Exception] catches the
    first, [except SystemExit] the second. *)
Inductive BaseException :=
| Exception (msg : string)
| SystemExit.

Inductive outcome (A : Type) :=
| Ok (a : A)
| Raise (e : BaseException).
Arguments Ok {A} & a.
Arguments Raise {A} e.

(** ** Geometry: [XYZ] and [BoundingBoxXYZ]

    Coordinates are doubles, as the host's are: binary64 numbers with the
    operations of IEEE 754, rounding to nearest.  [+], [-] and the product
    with a number work coordinate by coordinate. *)

Record XYZ := mkXYZ { xyz_X : float; xyz_Y : float; xyz_Z : float }.

Definition xyz_add (a b : XYZ) : XYZ :=
  mkXYZ (xyz_X a + xyz_X b)%float (xyz_Y a + xyz_Y b)%float (xyz_Z a + xyz_Z b)%float.

Definition xyz_sub (a b : XYZ) : XYZ :=
  mkXYZ (xyz_X a - xyz_X b)%float (xyz_Y a - xyz_Y b)%float (xyz_Z a - xyz_Z b)%float.

Definition xyz_scale (k : float) (a : XYZ) : XYZ :=
  mkXYZ (k * xyz_X a)%float (k * xyz_Y a)%float (k * xyz_Z a)%float.

(** The literal [0.5]. *)
Definition half : float := 0.5%float.

(** The number a double stands for; none for an infinity or a NaN. *)
Definition exact_value (x : float) : option Q :=
  match Prim2SF x with
  | S754_zero _ => Some 0%Q
  | S754_finite negative m e =>
      let v := (inject_Z (Z.pos m) * Qpower 2 e)%Q in
      Some (if negative then Qopp v else v)
  | _ => None
  end.

(** The midpoint of two numbers, as the specification words it: the
    number exactly half-way between them. *)
Definition is_midpoint_of (p a b : float) : bool :=
  match exact_value p, exact_value a, exact_value b with
  | Some qp, Some qa, Some qb => Qeq_bool (qp * 2) (qa + qb)
  | _, _, _ => false
  end.

Definition midpoint (p a b : XYZ) : bool :=
  is_midpoint_of (xyz_X p) (xyz_X a) (xyz_X b)
  && is_midpoint_of (xyz_Y p) (xyz_Y a) (xyz_Y b)
  && is_midpoint_of (xyz_Z p) (xyz_Z a) (xyz_Z b).

Record BoundingBoxXYZ := mkBBox { bb_Min : XYZ; bb_Max : XYZ }.

(** ** The host's objects *)

Record Category := mkCategory {
  cat_Id : Z;
  cat_Name : string;
  AllowsBoundParameters : bool
}.

(** [Category] is [None] for an element without category: reading
    [element.Category.Id] then raises.  [get_BoundingBox] is what
    [element.get_BoundingBox(None)] answers. *)
Record Element := mkElement {
  Id : Z;
  Category_ : option Category;
  get_BoundingBox : outcome (option BoundingBoxXYZ)
}.

Inductive ViewType := FloorPlan | Elevation | SectionView | OtherView.

(** [view_elements]: the (category id, element id) pairs of the non-type
    elements that [FilteredElementCollector(doc, view.Id)] yields. *)
Record View := mkView {
  view_Id : Z;
  view_Name : string;
  view_ViewType : ViewType;
  IsTemplate : bool;
  view_elements : list (Z * Z)
}.

(** The text of a label: a Python [str], a sequence of Unicode code
    points.  A literal of the examples stands for the code points of its
    (ASCII) characters. *)
Definition ustring := list N.

Definition ustring_of_string (s : string) : ustring :=
  map N_of_ascii (list_ascii_of_string s).
Coercion ustring_of_string : string >-> ustring.

(** An [IndependentTag].  The two readers are the two API shapes: the
    single-element one of the older hosts and the multi-element one. *)
Record Tag := mkTag {
  tag_Id : Z;
  tag_view : Z;
  TagText : ustring;
  GetTaggedLocalElement : outcome (option Z);
  GetTaggedLocalElements : outcome (list Z)
}.

Inductive TagMode := TM_ADDBY_CATEGORY | TM_ADDBY_MULTICATEGORY | TM_ADDBY_MATERIAL.
Inductive TagOrientation := Horizontal | Vertical.

(** The dictionary [config.load_toggle_settings()] returns, by key. *)
Record ToggleSettings := mkToggles {
  toggle_visibility : bool;
  check_blank_tag : bool;
  tag_windows_in_plan : bool
}.

(** What [forms.alert] can hand back to the comparison [== 'No']. *)
Inductive answer :=
| AnsStr (s : string)
| AnsBool (b : bool)
| AnsNone.

Definition answer_is (a : answer) (s : string) : bool :=
  match a with
  | AnsStr s' => String.eqb s' s
  | _ => false
  end.

(** ** What the script prints and calls *)

Inductive message :=
| MsgVersion (v : Z)
| MsgTagError (e : string)
| MsgElementError (element_id : Z) (e : string)
| MsgSelectedCategories (names : list string)
| MsgCollected (category_name : string) (element_ids : list Z)
| MsgSelectedViews (names : list string)
| MsgStageError (stage : string) (e : string)
| MsgGeneralError (e : string).

Inductive event :=
| Printed (m : message)
| UpdateProgress (idx total : nat)
| LoadToggleSettings
| AlertShown (category_id : Z) (result : outcome answer)
| ListShown (title : string) (names : list string)
            (result : outcome (option (list string)))
| TagCreated (tag_id : Z) (view_id : Z) (element : Element) (leader : bool)
             (mode : TagMode) (orientation : TagOrientation) (point : XYZ)
| TagDeleted (tag_id : Z)
| TransactionStart
| TransactionCommit
| TransactionRollBack.

(** ** The environment the script runs in *)

Record Host := mkHost {
  (** [int(doc.Application.VersionNumber)] *)
  host_version : outcome Z;
  (** [config.load_toggle_settings()], by the number of earlier loads *)
  load_toggle_settings : nat -> outcome ToggleSettings;
  (** [config.load_configs()] *)
  load_configs : outcome (list string);
  (** category ids of the document's [ElementType] elements *)
  element_types : list Z;
  (** [doc.Settings.Categories] *)
  Categories : list Category;
  (** the non-type elements of a category, document-wide *)
  elements_of_category : Z -> outcome (list Element);
  (** every [View] of the document *)
  all_views : outcome (list View);
  (** [forms.SelectFromList.show(names, title=...)]; [None] on cancel *)
  SelectFromList_show : string -> list string -> outcome (option (list string));
  (** [forms.alert(..., yes=True, no=True, exitscript=True)], by the number
      of earlier alerts and the category shown *)
  forms_alert : nat -> Category -> outcome answer;
  (** [IndependentTag.Create]: the text of the tag made, or the failure *)
  create_tag_text : Z -> Element -> bool -> TagMode -> TagOrientation -> XYZ -> outcome ustring;
  (** [doc.Delete(id)]: whether it goes through *)
  delete_element : Z -> outcome unit
}.

Inductive TransactionStatus := NotStarted | Started | Committed | RolledBack.

Record World := mkWorld {
  doc_tags : list Tag;
  next_Id : Z;
  transaction : TransactionStatus;
  snapshot : list Tag;
  committed_tags : list Tag;
  ignored_tag_types : gset Z;
  element_cache : gmap Z (list Element);
  loads : nat;
  alerts : nat;
  chronicle : list event
}.

(** ** A state-and-exception monad for the script *)

Definition M (A : Type) : Type := World -> outcome A * World.

Definition ret {A} (a : A) : M A := fun w => (Ok a, w).

Definition bind {A B} (m : M A) (k : A -> M B) : M B :=
  fun w => match m w with
           | (Ok a, w') => k a w'
           | (Raise e, w') => (Raise e, w')
           end.

Definition raise {A} (e : BaseException) : M A := fun w => (Raise e, w).

Definition lift {A} (o : outcome A) : M A := fun w => (o, w).

Definition gets {A} (f : World -> A) : M A := fun w => (Ok (f w), w).

Declare Scope script_scope.
Delimit Scope script_scope with script.
Notation "x <- m ;; k" := (bind m (fun x => k))
  (at level 100, m at next level, right associativity) : script_scope.
Notation "m ;; k" := (bind m (fun _ => k))
  (at level 100, right associativity) : script_scope.
Open Scope script_scope.

(** [try: body / except Exception as e: handler(str(e))].  [SystemExit]
    is not an [Exception] and passes. *)
Definition try_except {A} (body : M A) (handler : string -> M A) : M A :=
  fun w => match body w with
           | (Raise (Exception msg), w') => handler msg w'
           | r => r
           end.

(** Every call the script makes is appended to the chronicle. *)
Definition emit (e : event) : M unit :=
  fun w => (Ok tt,
            mkWorld (doc_tags w) (next_Id w) (transaction w) (snapshot w)
                    (committed_tags w) (ignored_tag_types w) (element_cache w)
                    (loads w) (alerts w) (chronicle w ++ [e])).

Definition print (m : message) : M unit := emit (Printed m).

(** ** Host calls that change the world *)

(** [config.load_toggle_settings()] *)
Definition config_load_toggle_settings (h : Host) : M ToggleSettings :=
  fun w =>
    (load_toggle_settings h (loads w),
     mkWorld (doc_tags w) (next_Id w) (transaction w) (snapshot w)
             (committed_tags w) (ignored_tag_types w) (element_cache w)
             (S (loads w)) (alerts w) (chronicle w ++ [LoadToggleSettings])).

(** [forms.alert('No tag type loaded for category: ...', yes=True, no=True,
    exitscript=True)] *)
Definition alert (h : Host) (c : Category) : M answer :=
  fun w =>
    let user_choice := forms_alert h (alerts w) c in
    (user_choice,
     mkWorld (doc_tags w) (next_Id w) (transaction w) (snapshot w)
             (committed_tags w) (ignored_tag_types w) (element_cache w)
             (loads w) (S (alerts w))
             (chronicle w ++ [AlertShown (cat_Id c) user_choice])).

(** [ignored_tag_types.add(category_id)] *)
Definition ignore_tag_type (category_id : Z) : M unit :=
  fun w =>
    (Ok tt,
     mkWorld (doc_tags w) (next_Id w) (transaction w) (snapshot w)
             (committed_tags w) ({[ category_id ]} ∪ ignored_tag_types w)
             (element_cache w) (loads w) (alerts w) (chronicle w)).

(** [element_cache[category_id] = category_elements] *)
Definition cache_elements (category_id : Z) (category_elements : list Element) : M unit :=
  fun w =>
    (Ok tt,
     mkWorld (doc_tags w) (next_Id w) (transaction w) (snapshot w)
             (committed_tags w) (ignored_tag_types w)
             (<[ category_id := category_elements ]> (element_cache w))
             (loads w) (alerts w) (chronicle w)).

(** [IndependentTag.Create(doc, view.Id, Reference(element), leader, mode,
    orientation, point)]: on success the document gains a tag of the view
    that refers to the element, under a fresh id. *)
Definition IndependentTag_Create (h : Host) (view_id : Z) (element : Element)
    (leader : bool) (mode : TagMode) (orientation : TagOrientation)
    (point : XYZ) : M Tag :=
  fun w =>
    match create_tag_text h view_id element leader mode orientation point with
    | Raise e => (Raise e, w)
    | Ok text =>
        let tag := mkTag (next_Id w) view_id text
                         (Ok (Some (Id element))) (Ok [Id element]) in
        (Ok tag,
         mkWorld (doc_tags w ++ [tag]) (next_Id w + 1) (transaction w)
                 (snapshot w) (committed_tags w) (ignored_tag_types w)
                 (element_cache w) (loads w) (alerts w)
                 (chronicle w ++ [TagCreated (next_Id w) view_id element leader
                                             mode orientation point]))
    end.

(** [doc.Delete(id)] *)
Definition doc_Delete (h : Host) (id : Z) : M unit :=
  fun w =>
    match delete_element h id with
    | Raise e => (Raise e, w)
    | Ok _ =>
        (Ok tt,
         mkWorld (filter (fun t => tag_Id t ≠ id) (doc_tags w)) (next_Id w)
                 (transaction w) (snapshot w) (committed_tags w)
                 (ignored_tag_types w) (element_cache w) (loads w) (alerts w)
                 (chronicle w ++ [TagDeleted id]))
    end.

(** [t.Start()], [t.Commit()], [t.RollBack()] of the one [Transaction]. *)
Definition t_Start : M unit :=
  fun w =>
    (Ok tt,
     mkWorld (doc_tags w) (next_Id w) Started (doc_tags w) (committed_tags w)
             (ignored_tag_types w) (element_cache w) (loads w) (alerts w)
             (chronicle w ++ [TransactionStart])).

Definition t_Commit : M unit :=
  fun w =>
    (Ok tt,
     mkWorld (doc_tags w) (next_Id w) Committed (snapshot w) (doc_tags w)
             (ignored_tag_types w) (element_cache w) (loads w) (alerts w)
             (chronicle w ++ [TransactionCommit])).

Definition t_RollBack : M unit :=
  fun w =>
    (Ok tt,
     mkWorld (snapshot w) (next_Id w) RolledBack (snapshot w) (committed_tags w)
             (ignored_tag_types w) (element_cache w) (loads w) (alerts w)
             (chronicle w ++ [TransactionRollBack])).

(** [forms.SelectFromList.show(names, multiselect=True, title=..., ...)] *)
Definition SelectFromList (h : Host) (title : string) (names : list string)
    : M (option (list string)) :=
  fun w =>
    let selected := SelectFromList_show h title names in
    (selected,
     mkWorld (doc_tags w) (next_Id w) (transaction w) (snapshot w)
             (committed_tags w) (ignored_tag_types w) (element_cache w)
             (loads w) (alerts w)
             (chronicle w ++ [ListShown title names selected])).

(** ** The script's helpers *)

(** [any(collector)] over the element types of the category. *)
Definition is_tag_type_loaded (h : Host) (built_in_category : Z) : bool :=
  existsb (Z.eqb built_in_category) (element_types h).

(** [element.Category], raising as Python does on [None.Id]. *)
Definition element_Category (element : Element) : outcome Category :=
  match Category_ element with
  | Some c => Ok c
  | None => Raise (Exception "'NoneType' object has no attribute 'Id'")
  end.

Definition is_element_visible_in_view (view : View) (element : Element) : outcome bool :=
  match element_Category element with
  | Raise e => Raise e
  | Ok c =>
      let collector := filter (fun p => p.1 = cat_Id c) (view_elements view) in
      Ok (existsb (fun e => Z.eqb e.2 (Id element)) collector)
  end.

Definition get_projected_center_point (element : Element) : outcome (option XYZ) :=
  match get_BoundingBox element with
  | Raise e => Raise e
  | Ok None => Ok None
  | Ok (Some bbox) =>
      Ok (Some (xyz_add (bb_Min bbox)
                        (xyz_scale half (xyz_sub (bb_Max bbox) (bb_Min bbox)))))
  end.

Definition get_revit_version (h : Host) : outcome Z := host_version h.

(** [str.isspace] of one character, which is what [str.strip()] without
    argument removes from both ends: the characters of Unicode's category
    Zs and of the bidirectional classes WS, B and S.  These are U+0009 to
    U+000D, U+001C to U+0020, U+0085, U+00A0, U+1680, U+2000 to U+200A,
    U+2028, U+2029, U+202F, U+205F and U+3000. *)
Definition is_space (c : N) : bool :=
  ((9 <=? c) && (c <=? 13) || (28 <=? c) && (c <=? 32)
   || (c =? 133) || (c =? 160) || (c =? 5760)
   || (8192 <=? c) && (c <=? 8202)
   || (c =? 8232) || (c =? 8233) || (c =? 8239) || (c =? 8287)
   || (c =? 12288))%N.

Fixpoint lstrip (s : ustring) : ustring :=
  match s with
  | c :: rest => if is_space c then lstrip rest else s
  | [] => []
  end.

Fixpoint rstrip (s : ustring) : ustring :=
  match s with
  | c :: rest =>
      match rstrip rest with
      | [] => if is_space c then [] else [c]
      | r => c :: r
      end
  | [] => []
  end.

Definition strip (s : ustring) : ustring := rstrip (lstrip s).

(** Python truthiness of a string: [not s] is [s == ''] *)
Definition py_not_str (s : ustring) : bool :=
  match s with
  | [] => true
  | _ => false
  end.

Definition ViewType_eqb (a b : ViewType) : bool :=
  match a, b with
  | FloorPlan, FloorPlan | Elevation, Elevation
  | SectionView, SectionView | OtherView, OtherView => true
  | _, _ => false
  end.

(** ** The tagger: [tag_elements_in_view] *)

(** One pass of the body of [for tag in existing_tags], under its [try]:
    the identifiers the tag contributes on this host version. *)
Definition tagged_ids_of (revit_version : Z) (tag : Tag) : outcome (list Z) :=
  if revit_version <=? 2021 then
    match GetTaggedLocalElement tag with
    | Raise e => Raise e
    | Ok None => Ok []
    | Ok (Some tagged_id) => Ok [tagged_id]
    end
  else GetTaggedLocalElements tag.

Fixpoint collect_already_tagged (revit_version : Z) (existing_tags : list Tag)
    (already_tagged_element_ids : gset Z) : M (gset Z) :=
  match existing_tags with
  | [] => ret already_tagged_element_ids
  | tag :: rest =>
      ids <- try_except
               (found <- lift (tagged_ids_of revit_version tag);;
                ret (list_to_set found ∪ already_tagged_element_ids))
               (fun msg => print (MsgTagError msg);;
                           ret already_tagged_element_ids);;
      collect_already_tagged revit_version rest ids
  end.

(** How one pass of the element loop ends: at the bottom of the body or at
    a [continue] (both go on with the next element), or at the [return]. *)
Inductive flow := NextElement | ReturnFromView.

(** The body of [for idx, element in enumerate(elements)], inside its
    [try]. *)
Definition element_body (h : Host) (view : View)
    (toggle_settings : ToggleSettings) (already_tagged_element_ids : gset Z)
    (total idx : nat) (element : Element) : M flow :=
  emit (UpdateProgress idx total);;
  if bool_decide (Id element ∈ already_tagged_element_ids) then ret NextElement
  else
    hidden <- (if toggle_visibility toggle_settings
               then visible <- lift (is_element_visible_in_view view element);;
                    ret (negb visible)
               else ret false);;
    if hidden : bool then ret NextElement
    else
      category <- lift (element_Category element);;
      ignored <- gets ignored_tag_types;;
      declined <- (if negb (is_tag_type_loaded h (cat_Id category))
                      && bool_decide (cat_Id category ∉ ignored)
                   then user_choice <- alert h category;;
                        if answer_is user_choice "No" then ret true
                        else ignore_tag_type (cat_Id category);; ret false
                   else ret false);;
      if declined : bool then ret ReturnFromView
      else
        center_point <- lift (get_projected_center_point element);;
        match center_point with
        | None => ret NextElement
        | Some point =>
            let leader := String.eqb (cat_Name category) "Windows"
                          && ViewType_eqb (view_ViewType view) FloorPlan
                          && tag_windows_in_plan toggle_settings in
            tag <- IndependentTag_Create h (view_Id view) element leader
                     TM_ADDBY_CATEGORY Horizontal point;;
            (if check_blank_tag toggle_settings && py_not_str (strip (TagText tag))
             then doc_Delete h (tag_Id tag)
             else ret tt);;
            ret NextElement
        end.

(** One pass with its guard: [except Exception as e: print(...); continue]. *)
Definition guarded_element (h : Host) (view : View)
    (toggle_settings : ToggleSettings) (already_tagged_element_ids : gset Z)
    (total idx : nat) (element : Element) : M flow :=
  try_except
    (element_body h view toggle_settings already_tagged_element_ids total idx element)
    (fun msg => print (MsgElementError (Id element) msg);; ret NextElement).

Fixpoint element_loop (h : Host) (view : View)
    (toggle_settings : ToggleSettings) (already_tagged_element_ids : gset Z)
    (total idx : nat) (elements : list Element) : M unit :=
  match elements with
  | [] => ret tt
  | element :: rest =>
      f <- guarded_element h view toggle_settings already_tagged_element_ids
             total idx element;;
      match f with
      | NextElement =>
          element_loop h view toggle_settings already_tagged_element_ids
                       total (S idx) rest
      | ReturnFromView => ret tt
      end
  end.

(** The [IndependentTag]s of the view, as the collector yields them. *)
Definition tags_in_view (view : View) (w : World) : list Tag :=
  filter (fun t => tag_view t = view_Id view) (doc_tags w).

Definition tag_elements_in_view (h : Host) (view : View)
    (elements : list Element) : M unit :=
  revit_version <- lift (get_revit_version h);;
  print (MsgVersion revit_version);;
  toggle_settings <- config_load_toggle_settings h;;
  existing_tags <- gets (tags_in_view view);;
  already_tagged_element_ids <- collect_already_tagged revit_version existing_tags ∅;;
  element_loop h view toggle_settings already_tagged_element_ids
               (length elements) 0 elements.

(** ** The driver: [tag_elements_in_selected_views] *)

(** [for view in selected_views: tag_elements_in_view(doc, view,
    selected_elements, pb)].  The progress bar around it shows only in the
    [UpdateProgress] events; [tagged_views_info] is never used. *)
Fixpoint for_each_view (h : Host) (selected_views : list View)
    (selected_elements : list Element) : M unit :=
  match selected_views with
  | [] => ret tt
  | view :: rest =>
      tag_elements_in_view h view selected_elements;;
      for_each_view h rest selected_elements
  end.

(** [t.Start()], then the [try] with the loop and [t.Commit()], and
    [except Exception: t.RollBack(); raise]. *)
Definition tag_elements_in_selected_views (h : Host)
    (selected_views : list View) (selected_elements : list Element) : M unit :=
  t_Start;;
  try_except
    (for_each_view h selected_views selected_elements;;
     t_Commit)
    (fun msg => t_RollBack;; raise (Exception msg)).

(** ** The selection stages *)

(** [for x in xs: ys.append(f(x))] with a fallible [f]. *)
Fixpoint map_outcome {A B} (f : A -> outcome B) (xs : list A) : outcome (list B) :=
  match xs with
  | [] => Ok []
  | x :: rest =>
      match f x with
      | Raise e => Raise e
      | Ok y =>
          match map_outcome f rest with
          | Raise e => Raise e
          | Ok ys => Ok (y :: ys)
          end
      end
  end.

(** [categories.get_Item(name)] *)
Definition get_Item (categories : list Category) (name : string) : outcome Category :=
  match find (fun cat => String.eqb (cat_Name cat) name) categories with
  | Some cat => Ok cat
  | None => Raise (Exception "category not found")
  end.

Definition select_categories (h : Host) : M (list Category) :=
  let categories := Categories h in
  specific_categories <- lift (load_configs h);;
  let category_names :=
    map cat_Name
        (List.filter (fun cat => existsb (String.eqb (cat_Name cat)) specific_categories
                                 && AllowsBoundParameters cat)
                     categories) in
  try_except
    (selected_category_names <-
       SelectFromList h "Select Categories to Tag" category_names;;
     match selected_category_names with
     | None => raise SystemExit
     | Some names =>
         selected_categories <- lift (map_outcome (get_Item categories) names);;
         print (MsgSelectedCategories names);;
         ret selected_categories
     end)
    (fun msg => print (MsgStageError "select_categories" msg);;
                raise (Exception msg)).

Fixpoint collect_elements (h : Host) (selected_categories : list Category)
    (selected_elements : list Element) : M (list Element) :=
  match selected_categories with
  | [] => ret selected_elements
  | category :: rest =>
      category_elements <- lift (elements_of_category h (cat_Id category));;
      cache_elements (cat_Id category) category_elements;;
      print (MsgCollected (cat_Name category) (map Id category_elements));;
      collect_elements h rest (selected_elements ++ category_elements)
  end.

Definition select_elements (h : Host) (selected_categories : list Category)
    : M (list Element) :=
  try_except
    (collect_elements h selected_categories [])
    (fun msg => print (MsgStageError "select_elements" msg);;
                raise (Exception msg)).

(** [sorted(names)]: insertion into an ordered list, smallest first. *)
Fixpoint insert_sorted (s : string) (l : list string) : list string :=
  match l with
  | [] => [s]
  | x :: rest => if String.leb s x then s :: l else x :: insert_sorted s rest
  end.

Definition sorted (l : list string) : list string :=
  fold_right insert_sorted [] l.

Definition select_views (h : Host) : M (list View) :=
  views <- lift (all_views h);;
  let target_view_types := [FloorPlan; Elevation; SectionView] in
  let available_views :=
    List.filter (fun v => existsb (ViewType_eqb (view_ViewType v)) target_view_types
                          && negb (IsTemplate v))
                views in
  let view_names := sorted (map view_Name available_views) in
  try_except
    (selected_view_names <- SelectFromList h "Select Views" view_names;;
     match selected_view_names with
     | None => raise SystemExit
     | Some names =>
         let selected_views :=
           List.filter (fun v => existsb (String.eqb (view_Name v)) names)
                       available_views in
         print (MsgSelectedViews names);;
         ret selected_views
     end)
    (fun msg => print (MsgStageError "select_views" msg);;
                raise (Exception msg)).

(** ** The top level of the script *)

(** Python truthiness of a list: non-empty. *)
Definition truthy {A} (l : list A) : bool :=
  match l with
  | [] => false
  | _ => true
  end.

Definition run_stages (h : Host) : M unit :=
  selected_categories <- select_categories h;;
  selected_elements <- select_elements h selected_categories;;
  selected_views <- select_views h;;
  if truthy selected_elements && truthy selected_views
  then tag_elements_in_selected_views h selected_views selected_elements
  else ret tt.

(** [try: ... except SystemExit: pass / except Exception as e: print(...)] *)
Definition main (h : Host) : M unit :=
  fun w => match run_stages h w with
           | (Raise SystemExit, w') => (Ok tt, w')
           | (Raise (Exception msg), w') => print (MsgGeneralError msg) w'
           | r => r
           end.

(** The world a run starts in: the document as it is, nothing yet called. *)
Definition fresh_world (tags : list Tag) (next : Z) : World :=
  mkWorld tags next NotStarted tags tags ∅ ∅ 0 0 [].

(** ** Reading the chronicle *)

Definition is_creation_of (element_id view_id : Z) (e : event) : bool :=
  match e with
  | TagCreated _ v el _ _ _ _ => Z.eqb (Id el) element_id && Z.eqb v view_id
  | _ => false
  end.

Definition is_creation (e : event) : bool :=
  match e with
  | TagCreated _ _ _ _ _ _ _ => true
  | _ => false
  end.

Definition is_deletion (e : event) : bool :=
  match e with
  | TagDeleted _ => true
  | _ => false
  end.

Definition is_transaction_event (e : event) : bool :=
  match e with
  | TransactionStart | TransactionCommit | TransactionRollBack => true
  | _ => false
  end.

Definition is_error_message (e : event) : bool :=
  match e with
  | Printed (MsgTagError _) | Printed (MsgElementError _ _)
  | Printed (MsgStageError _ _) | Printed (MsgGeneralError _) => true
  | _ => false
  end.

Definition created_elements (new : list event) : list Element :=
  omap (fun e => match e with
                 | TagCreated _ _ el _ _ _ _ => Some el
                 | _ => None
                 end) new.

(** The placement point and the leader flag the tagger passes to
    [IndependentTag.Create], named for the statements below. *)
Definition center_of (bbox : BoundingBoxXYZ) : XYZ :=
  xyz_add (bb_Min bbox) (xyz_scale half (xyz_sub (bb_Max bbox) (bb_Min bbox))).

Definition wants_leader (view : View) (toggle_settings : ToggleSettings)
    (category : Category) : bool :=
  String.eqb (cat_Name category) "Windows"
  && ViewType_eqb (view_ViewType view) FloorPlan
  && tag_windows_in_plan toggle_settings.

(** The tag [IndependentTag.Create] puts in the document. *)
Definition tag_made (id view_id : Z) (element : Element) (text : ustring) : Tag :=
  mkTag id view_id text (Ok (Some (Id element))) (Ok [Id element]).

(** What each event of one pass over [element] tells about it. *)
Definition pass_event (h : Host) (view : View) (ts : ToggleSettings)
    (covered : gset Z) (total idx : nat) (element : Element) (e : event) : Prop :=
  match e with
  | UpdateProgress i t => i = idx /\ t = total
  | AlertShown c ans =>
      exists category,
        Category_ element = Some category /\ c = cat_Id category /\
        is_tag_type_loaded h c = false /\ (Id element ∉ covered)
  | TagCreated id v el leader mode orientation point =>
      el = element /\ v = view_Id view /\ (Id element ∉ covered) /\
      (toggle_visibility ts = true ->
       is_element_visible_in_view view element = Ok true) /\
      mode = TM_ADDBY_CATEGORY /\ orientation = Horizontal /\
      exists category bbox text,
        Category_ element = Some category /\
        get_BoundingBox element = Ok (Some bbox) /\
        point = center_of bbox /\
        leader = wants_leader view ts category /\
        create_tag_text h v el leader mode orientation point = Ok text
  | TagDeleted id => check_blank_tag ts = true
  | Printed m => exists msg, m = MsgElementError (Id element) msg
  | _ => False
  end.

(** The same for a whole element loop. *)
Definition loop_event (h : Host) (view : View) (ts : ToggleSettings)
    (covered : gset Z) (total : nat) (elements : list Element) (e : event) : Prop :=
  exists idx element,
    element ∈ elements /\
    pass_event h view ts covered total idx element e.

(** The identifiers the first loop of the tagger gathers, as a set. *)
Definition already_tagged_ids (revit_version : Z) (existing_tags : list Tag) : gset Z :=
  ⋃ (map (fun tag => match tagged_ids_of revit_version tag with
                     | Ok found => list_to_set found
                     | Raise _ => ∅
                     end) existing_tags).

(** What the tagger leaves alone: everything of the world except the
    document's tags, the id counter, the approved categories, the alert
    counter and the chronicle. *)
Definition same_run_state (w w' : World) : Prop :=
  transaction w' = transaction w /\ snapshot w' = snapshot w /\
  committed_tags w' = committed_tags w /\ loads w' = loads w /\
  element_cache w' = element_cache w.

(** The world with [new] appended to its chronicle, and the world after one
    more load of the settings. *)
Definition log_to (w : World) (new : list event) : World :=
  mkWorld (doc_tags w) (next_Id w) (transaction w) (snapshot w)
          (committed_tags w) (ignored_tag_types w) (element_cache w)
          (loads w) (alerts w) (chronicle w ++ new).

Definition count_load (w : World) : World :=
  mkWorld (doc_tags w) (next_Id w) (transaction w) (snapshot w)
          (committed_tags w) (ignored_tag_types w) (element_cache w)
          (S (loads w)) (alerts w) (chronicle w).

Definition is_tag_error (e : event) : Prop :=
  exists msg, e = Printed (MsgTagError msg).

(** The ways a call of [tag_elements_in_view] can go: it fails before the
    element loop (version, settings, or the exit signal while reading a
    tag), or it is the element loop run with the settings just loaded and
    the identifiers gathered from the tags the view had. *)
Inductive view_run (h : Host) (view : View) (elements : list Element)
    (w : World) : outcome unit -> World -> Prop :=
| vr_version_fails e :
    get_revit_version h = Raise e ->
    view_run h view elements w (Raise e) w
| vr_settings_fail ver e :
    get_revit_version h = Ok ver ->
    load_toggle_settings h (loads w) = Raise e ->
    view_run h view elements w (Raise e)
      (log_to (count_load w) [Printed (MsgVersion ver); LoadToggleSettings])
| vr_tags_exit ver ts errs :
    get_revit_version h = Ok ver ->
    load_toggle_settings h (loads w) = Ok ts ->
    Forall is_tag_error errs ->
    view_run h view elements w (Raise SystemExit)
      (log_to (count_load w)
              (Printed (MsgVersion ver) :: LoadToggleSettings :: errs))
| vr_loop ver ts errs r w' :
    get_revit_version h = Ok ver ->
    load_toggle_settings h (loads w) = Ok ts ->
    Forall is_tag_error errs ->
    element_loop h view ts (already_tagged_ids ver (tags_in_view view w))
      (length elements) 0 elements
      (log_to (count_load w)
              (Printed (MsgVersion ver) :: LoadToggleSettings :: errs)) = (r, w') ->
    view_run h view elements w r w'.

(** The tag an event is about. *)
Definition event_tag_id (e : event) : option Z :=
  match e with
  | TagCreated id _ _ _ _ _ _ => Some id
  | TagDeleted id => Some id
  | _ => None
  end.

(** [b] is the very next event after [a] in [l]. *)
Definition follows_directly (a b : event) (l : list event) : Prop :=
  exists l1 l2, l = l1 ++ a :: b :: l2.

(** What became of the tag made under [id]: deleted at once (the document
    then holds no tag of that id), or kept in the document. *)
Definition tag_fate (h : Host) (ts : ToggleSettings) (created : event)
    (id : Z) (tag : Tag) (new : list event) (w' : World) : Prop :=
  if check_blank_tag ts && py_not_str (strip (TagText tag))
  then match delete_element h id with
       | Ok _ => follows_directly created (TagDeleted id) new /\
                 (forall t, t ∈ doc_tags w' -> tag_Id t <> id)
       | Raise _ => (TagDeleted id ∉ new) /\ tag ∈ doc_tags w'
       end
  else (TagDeleted id ∉ new) /\ tag ∈ doc_tags w'.

(** The bookkeeping of tags between two worlds [new] events apart: ids are
    handed out upwards, tags under older ids stay, and every tag made has
    the fate its text and the settings give it. *)
Definition tags_tracked (h : Host) (ts : ToggleSettings)
    (w : World) (new : list event) (w' : World) : Prop :=
  next_Id w <= next_Id w' /\
  (forall tag, tag ∈ doc_tags w -> tag_Id tag < next_Id w -> tag ∈ doc_tags w') /\
  (forall tag, tag ∈ doc_tags w' ->
               tag ∈ doc_tags w \/ next_Id w <= tag_Id tag < next_Id w') /\
  (forall e id, e ∈ new -> event_tag_id e = Some id -> next_Id w <= id < next_Id w') /\
  (forall id v el leader mode orientation point,
     TagCreated id v el leader mode orientation point ∈ new ->
     exists text,
       create_tag_text h v el leader mode orientation point = Ok text /\
       tag_fate h ts (TagCreated id v el leader mode orientation point) id
                (tag_made id v el text) new w').

(** Whether a pass over [el] gets as far as a successful
    [IndependentTag.Create], when no prompt stands in the way. *)
Definition passes_filters (h : Host) (view : View) (ts : ToggleSettings)
    (covered : gset Z) (el : Element) : bool :=
  negb (bool_decide (Id el ∈ covered))
  && (negb (toggle_visibility ts)
      || match is_element_visible_in_view view el with
         | Ok true => true
         | _ => false
         end)
  && match Category_ el, get_BoundingBox el with
     | Some category, Ok (Some bbox) =>
         match create_tag_text h (view_Id view) el (wants_leader view ts category)
                               TM_ADDBY_CATEGORY Horizontal (center_of bbox) with
         | Ok _ => true
         | Raise _ => false
         end
     | _, _ => false
     end.

Definition no_prompt_needed (h : Host) (w : World) (el : Element) : Prop :=
  forall c, Category_ el = Some c ->
            is_tag_type_loaded h (cat_Id c) = true \/ cat_Id c ∈ ignored_tag_types w.

(** The events a computation adds when run in [w], its result and the
    world it leaves. *)
Definition events_of {A} (m : M A) (w : World) : list event :=
  drop (length (chronicle w)) (chronicle (m w).2).

Definition result_of {A} (m : M A) (w : World) : outcome A := (m w).1.

Definition world_after {A} (m : M A) (w : World) : World := (m w).2.

(** The whitespace characters, one by one: tab, line feed, vertical tab,
    form feed, carriage return, the four information separators, space,
    next line, no-break space, ogham space mark, the spaces U+2000 to
    U+200A (en quad to hair space), line separator, paragraph separator,
    narrow no-break space, medium mathematical space, ideographic space. *)
Definition unicode_whitespace : list N :=
  [9; 10; 11; 12; 13; 28; 29; 30; 31; 32; 133; 160; 5760;
   8192; 8193; 8194; 8195; 8196; 8197; 8198; 8199; 8200; 8201; 8202;
   8232; 8233; 8239; 8287; 12288]%N.

(** A text label that is empty or all whitespace. *)
Definition whitespace_only (s : ustring) : bool :=
  forallb (fun c => existsb (N.eqb c) unicode_whitespace) s.

(** ** A small project, for the examples

    Two doors (the second without bounding box) and a window, two floor
    plans.  The host is left open in what the settings file holds, which
    element types are loaded, what the user answers to an alert, and which
    text a new tag shows. *)

(** The double of a (small) whole number. *)
Fixpoint float_of_positive (p : positive) : float :=
  match p with
  | xH => 1
  | xO q => 2 * float_of_positive q
  | xI q => 2 * float_of_positive q + 1
  end%float.

Definition float_of_Z (z : Z) : float :=
  match z with
  | Z0 => 0
  | Zpos p => float_of_positive p
  | Zneg p => - float_of_positive p
  end%float.

Definition ex_point (x y z : Z) : XYZ :=
  mkXYZ (float_of_Z x) (float_of_Z y) (float_of_Z z).

Definition ex_doors : Category := mkCategory 10 "Doors" true.
Definition ex_windows : Category := mkCategory 20 "Windows" true.
Definition ex_box : BoundingBoxXYZ := mkBBox (ex_point 0 0 0) (ex_point 2 4 6).
Definition ex_door1 : Element := mkElement 101 (Some ex_doors) (Ok (Some ex_box)).
Definition ex_door2 : Element := mkElement 102 (Some ex_doors) (Ok None).
Definition ex_window : Element := mkElement 201 (Some ex_windows) (Ok (Some ex_box)).

Definition ex_level1 : View :=
  mkView 1 "Level 1" FloorPlan false [(10, 101); (10, 102); (20, 201)].
Definition ex_level2 : View :=
  mkView 2 "Level 2" FloorPlan false [(10, 101); (20, 201)].

Definition ex_host (settings : nat -> outcome ToggleSettings)
    (types : list Z) (answers : nat -> outcome answer)
    (text : Element -> outcome ustring) : Host :=
  mkHost (Ok 2023) settings (Ok ["Doors"; "Windows"]) types
         [ex_doors; ex_windows]
         (fun c => if c =? 10 then Ok [ex_door1; ex_door2]
                   else if c =? 20 then Ok [ex_window] else Ok [])
         (Ok [ex_level1; ex_level2])
         (fun _ names => Ok (Some names))
         (fun n _ => answers n)
         (fun _ el _ _ _ _ => text el)
         (fun _ => Ok tt).

Definition ex_all_on : ToggleSettings := mkToggles true true true.
Definition ex_all_off : ToggleSettings := mkToggles false false false.

(** Everything loaded, every toggle on, every label reads "D1". *)
Definition ex_plain_host : Host :=
  ex_host (fun _ => Ok ex_all_on) [10; 20] (fun _ => Ok (AnsBool true))
          (fun _ => Ok "D1").

(** The same, but the door tags come out blank. *)
Definition ex_blank_host : Host :=
  ex_host (fun _ => Ok ex_all_on) [10; 20] (fun _ => Ok (AnsBool true))
          (fun el => if Id el =? 201 then Ok "W1" else Ok "  ").

Definition ex_elements : list Element := [ex_door1; ex_door2; ex_window].

(** An empty document whose next free id is 1000. *)
Definition ex_world : World := fresh_world [] 1000.


(** The same document with door 101 already tagged in Level 1. *)
Definition ex_tagged_world : World :=
  fresh_world [tag_made 900 1 ex_door1 "D1"] 1000.

(** ** More vocabulary and examples for the run as a whole *)

(** An event the tagger can add: not one of the transaction, not a
    selection dialog. *)
Definition is_tagger_event (e : event) : Prop :=
  match e with
  | TransactionStart | TransactionCommit | TransactionRollBack
  | ListShown _ _ _ => False
  | _ => True
  end.

(** What the tagger leaves of the transaction and of the approved set. *)
Definition tagger_step (w : World) (new : list event) (w' : World) : Prop :=
  Forall is_tagger_event new /\
  transaction w' = transaction w /\ snapshot w' = snapshot w /\
  committed_tags w' = committed_tags w /\
  element_cache w' = element_cache w /\
  ignored_tag_types w ⊆ ignored_tag_types w'.

(** An approved category is not asked about. *)
Definition approved_stay_quiet (w : World) (new : list event) (w' : World) : Prop :=
  ignored_tag_types w ⊆ ignored_tag_types w' /\
  forall c ans, c ∈ ignored_tag_types w -> AlertShown c ans ∉ new.

(** A selection dialog that the user cancelled. *)
Definition is_cancel (e : event) : bool :=
  match e with
  | ListShown _ _ (Ok None) => true
  | _ => false
  end.

(** Neither a transaction call, nor a tag made or deleted, nor an error line. *)
Definition is_quiet (e : event) : bool :=
  negb (is_transaction_event e || is_creation e || is_deletion e || is_error_message e).

(** How a stage of the script stands to a cancelled dialog: either no dialog
    of it was cancelled (and if the stage returned, it was quiet), or the
    stage ended with the exit signal and was quiet up to there. *)
Definition stage_ok {A} (r : outcome A) (new : list event) : Prop :=
  (Forall (fun e => is_cancel e = false) new /\
   (forall a, r = Ok a -> Forall (fun e => is_quiet e = true) new)) \/
  (r = Raise SystemExit /\ Forall (fun e => is_quiet e = true) new).

Definition document_untouched (w w' : World) : Prop :=
  doc_tags w' = doc_tags w /\ transaction w' = transaction w.

Definition cancel_safe {A} (m : M A) : Prop :=
  forall w r w',
    m w = (r, w') ->
    exists new, chronicle w' = chronicle w ++ new /\
                stage_ok r new /\ document_untouched w w'.

Definition cancel_final {A} (m : M A) : Prop :=
  forall w r w',
    m w = (r, w') ->
    exists new, chronicle w' = chronicle w ++ new /\
                (Forall (fun e => is_cancel e = false) new \/
                 (r = Raise SystemExit /\ Forall (fun e => is_quiet e = true) new /\
                  document_untouched w w')).

Definition ex_cancel_views_host : Host :=
  mkHost (Ok 2023) (fun _ => Ok ex_all_on) (Ok ["Doors"; "Windows"]) [10; 20]
         [ex_doors; ex_windows]
         (fun c => if c =? 10 then Ok [ex_door1; ex_door2]
                   else if c =? 20 then Ok [ex_window] else Ok [])
         (Ok [ex_level1; ex_level2])
         (fun title names => if String.eqb title "Select Views" then Ok None
                             else Ok (Some names))
         (fun _ _ => Ok (AnsBool true))
         (fun _ _ _ _ _ _ => Ok "D1")
         (fun _ => Ok tt).

(** The world right after the alert about [category] was shown in [w],
    during the pass numbered [idx]. *)
Definition asked (h : Host) (total idx : nat) (category : Category) (w : World) : World :=
  mkWorld (doc_tags w) (next_Id w) (transaction w) (snapshot w)
          (committed_tags w) (ignored_tag_types w) (element_cache w)
          (loads w) (S (alerts w))
          (chronicle w ++ [UpdateProgress idx total;
                           AlertShown (cat_Id category)
                                      (forms_alert h (alerts w) category)]).

(** The path to the prompt: the element is not covered, not hidden, and
    its category has no type loaded and is not approved. *)
Definition reaches_prompt (h : Host) (view : View) (ts : ToggleSettings)
    (covered : gset Z) (el : Element) (category : Category) (w : World) : Prop :=
  (Id el ∉ covered) /\
  (toggle_visibility ts = true -> is_element_visible_in_view view el = Ok true) /\
  Category_ el = Some category /\
  is_tag_type_loaded h (cat_Id category) = false /\
  cat_Id category ∉ ignored_tag_types w.

(** The windows have no tag type loaded; the user answers No to the first
    alert and Yes to the later ones. *)
Definition ex_decline_host : Host :=
  ex_host (fun _ => Ok ex_all_on) [10]
          (fun n => match n with
                    | O => Ok (AnsStr "No")
                    | _ => Ok (AnsStr "Yes")
                    end)
          (fun _ => Ok "D1").

(** The settings can be read for the first view only. *)
Definition ex_unreadable_host : Host :=
  ex_host (fun n => match n with
                    | O => Ok ex_all_on
                    | _ => Raise (Exception "settings unreadable")
                    end)
          [10; 20] (fun _ => Ok (AnsBool true)) (fun _ => Ok "D1").

(** The settings file changes between the two loads of a run. *)
Definition ex_changing_host : Host :=
  ex_host (fun n => match n with
                    | O => Ok ex_all_off
                    | _ => Ok ex_all_on
                    end)
          [10; 20] (fun _ => Ok (AnsBool true)) (fun _ => Ok "D1").

(** ** Vocabulary and examples for the rest of the script *)

(** The lines the first loop prints: one per tag whose reader raises an
    [Exception], in the order of the tags. *)
Definition tag_errors (revit_version : Z) (existing_tags : list Tag) : list event :=
  omap (fun tag => match tagged_ids_of revit_version tag with
                   | Raise (Exception msg) => Some (Printed (MsgTagError msg))
                   | _ => None
                   end) existing_tags.

(** A tag of Level 1 whose readers fail. *)
Definition ex_broken_tag : Tag :=
  mkTag 901 1 "?" (Raise (Exception "tag unreadable"))
        (Raise (Exception "tag unreadable")).

(** The (index, total) pairs reported to the progress bar. *)
Definition progress_of (new : list event) : list (nat * nat) :=
  omap (fun e => match e with
                 | UpdateProgress idx total => Some (idx, total)
                 | _ => None
                 end) new.

(** Whatever is approved at the end was approved at the start or has been
    asked about and not answered with ['No']. *)
Definition approved_by_asking (w : World) (new : list event) (w' : World) : Prop :=
  forall c,
    c ∈ ignored_tag_types w' ->
    c ∈ ignored_tag_types w \/
    exists a, AlertShown c (Ok a) ∈ new /\ answer_is a "No" = false.

(** The tagger deletes nothing but a tag it has just made: the tags the
    document held under ids below the counter stay, and every deletion
    directly follows the creation of the tag deleted. *)
Definition deletes_its_own (w : World) (new : list event) (w' : World) : Prop :=
  next_Id w <= next_Id w' /\
  (forall tag, tag ∈ doc_tags w -> tag_Id tag < next_Id w -> tag ∈ doc_tags w') /\
  (forall id,
     TagDeleted id ∈ new ->
     exists v el leader mode orientation point,
       follows_directly (TagCreated id v el leader mode orientation point)
                        (TagDeleted id) new).

(** What an alert in the chronicle tells: its category has no type loaded
    and is the category of a selected element. *)
Definition alert_is_due (h : Host) (selected_elements : list Element) (e : event) : Prop :=
  match e with
  | AlertShown c _ =>
      is_tag_type_loaded h c = false /\
      exists el category,
        el ∈ selected_elements /\ Category_ el = Some category /\ cat_Id category = c
  | _ => True
  end.

(** A host whose configured list names a category that allows no bound
    parameters, whose views include a template, a view of another type and
    views that share a name, and whose user picks by name. *)
Definition ex_picky_host : Host :=
  mkHost (Ok 2023) (fun _ => Ok ex_all_on) (Ok ["Windows"; "Doors"; "Walls"]) [10; 20]
         [ex_doors; mkCategory 30 "Walls" false; ex_windows]
         (fun c => if c =? 10 then Ok [ex_door1; ex_door2]
                   else if c =? 20 then Ok [ex_window] else Ok [])
         (Ok [mkView 5 "Section A" SectionView false [];
              ex_level2;
              mkView 6 "Level 1" FloorPlan true [];
              mkView 7 "Level 1" OtherView false [];
              ex_level1;
              mkView 8 "Level 1" Elevation false []])
         (fun title names =>
            if String.eqb title "Select Views" then Ok (Some ["Level 1"])
            else Ok (Some ["Windows"; "Doors"]))
         (fun _ _ => Ok (AnsBool true))
         (fun _ _ _ _ _ _ => Ok "D1")
         (fun _ => Ok tt).

(** The order [sorted] sorts by. *)
Definition string_le (a b : string) : Prop := String.leb a b = true.

(** The views the dialog can offer: plans, elevations and sections that are
    no templates, in the order of the document. *)
Definition available_views (views : list View) : list View :=
  List.filter (fun v => existsb (ViewType_eqb (view_ViewType v))
                                [FloorPlan; Elevation; SectionView]
                        && negb (IsTemplate v)) views.

(** The lines [select_elements] prints for the categories it went through. *)
Definition collected_lines (cats : list Category) (lists : list (list Element))
    : list event :=
  map (fun cl => Printed (MsgCollected (cat_Name cl.1) (map Id cl.2))) (zip cats lists).

(** A line only the selection stages and the top level print. *)
Definition is_report (e : event) : bool :=
  match e with
  | Printed (MsgStageError _ _) | Printed (MsgGeneralError _) => true
  | _ => false
  end.

(** The tagger prints none of them. *)
Definition no_report (w : World) (new : list event) (w' : World) : Prop :=
  Forall (fun e => is_report e = false) new.

(** What a selection stage adds when all goes well: its dialog and the
    lines about what was selected. *)
Definition is_stage_line (e : event) : bool :=
  match e with
  | ListShown _ _ _
  | Printed (MsgSelectedCategories _) | Printed (MsgCollected _ _)
  | Printed (MsgSelectedViews _) => true
  | _ => false
  end.

(** How a selection stage ends: with nothing but such lines, or with its
    error line last and the error on its way up. *)
Definition stage_trace {A} (r : outcome A) (new : list event) : Prop :=
  Forall (fun e => is_stage_line e = true) new \/
  exists stage msg before,
    new = before ++ [Printed (MsgStageError stage msg)] /\
    Forall (fun e => is_stage_line e = true) before /\
    r = Raise (Exception msg).

(** A host whose collector fails for every category but the doors. *)
Definition ex_broken_collector_host : Host :=
  mkHost (Ok 2023) (fun _ => Ok ex_all_on) (Ok ["Doors"; "Windows"]) [10; 20]
         [ex_doors; ex_windows]
         (fun c => if c =? 10 then Ok [ex_door1; ex_door2]
                   else Raise (Exception "collector failed"))
         (Ok [ex_level1; ex_level2])
         (fun _ names => Ok (Some names))
         (fun _ _ => Ok (AnsBool true))
         (fun _ _ _ _ _ _ => Ok "D1")
         (fun _ => Ok tt).

(** Neither the commit nor the top-level error line. *)
Definition not_closing (e : event) : Prop :=
  e <> TransactionCommit /\ forall m, e <> Printed (MsgGeneralError m).

(** A prompt that ended the script instead of returning. *)
Definition is_exit_alert (e : event) : bool :=
  match e with
  | AlertShown _ (Raise SystemExit) => true
  | _ => false
  end.

(** No prompt ended the script, or one did: it is the last event, and the
    exit signal is on its way up. *)
Definition exit_last {A} (r : outcome A) (new : list event) : Prop :=
  Forall (fun e => is_exit_alert e = false) new \/
  (r = Raise SystemExit /\
   exists before e,
     new = before ++ [e] /\ is_exit_alert e = true /\
     Forall (fun e => is_exit_alert e = false) before).

(** A host without tag type for the windows, whose user ends the script at
    the prompt. *)
Definition ex_exit_host : Host :=
  ex_host (fun _ => Ok ex_all_on) [10] (fun _ => Raise SystemExit) (fun _ => Ok "D1").

(** A door whose box reaches from x = -5 to the double nearest 1.1, alone
    in a plan of its own. *)
Definition ex_skew_box : BoundingBoxXYZ :=
  mkBBox (mkXYZ (-5) 0 0) (mkXYZ 0x1.199999999999ap+0 4 6).
Definition ex_skew_door : Element := mkElement 103 (Some ex_doors) (Ok (Some ex_skew_box)).
Definition ex_skew_view : View := mkView 3 "Level 3" FloorPlan false [(10, 103)].

(** The door tags come out as a space, a no-break space, an em space and a
    tab. *)
Definition ex_nbsp_host : Host :=
  ex_host (fun _ => Ok ex_all_on) [10; 20] (fun _ => Ok (AnsBool true))
          (fun el => if Id el =? 201 then Ok "W1" else Ok [32; 160; 8195; 9]%N).

(** What [forms.alert(..., yes=True, no=True, exitscript=True)] makes of
    the user's choice: on Yes it returns [True]; on No it does not return
    but ends the script with the exit signal. *)
Definition user_approves (r : outcome answer) : Prop := r = Ok (AnsBool true).
Definition user_declines (r : outcome answer) : Prop := r = Raise SystemExit.

(** The windows have no tag type loaded and the user approves. *)
Definition ex_approve_host : Host :=
  ex_host (fun _ => Ok ex_all_on) [10] (fun _ => Ok (AnsBool true)) (fun _ => Ok "D1").

(** * Proofs *)

(** ** Symbolic execution of the script's monad *)

Ltac unfold_script :=
  unfold guarded_element, element_body, try_except, bind, ret, raise, lift,
    gets, print, emit, alert, ignore_tag_type, IndependentTag_Create,
    doc_Delete, get_projected_center_point in *.

Ltac norm_bool :=
  repeat match goal with
  | H : bool_decide _ = true |- _ => apply bool_decide_eq_true in H
  | H : bool_decide _ = false |- _ => apply bool_decide_eq_false in H
  | H : negb _ = true |- _ => apply negb_true_iff in H
  | H : negb _ = false |- _ => apply negb_false_iff in H
  | H : _ && _ = true |- _ => apply andb_true_iff in H; destruct H
  end.

Ltac exec := unfold_script; repeat (case_match; simplify_eq/=); norm_bool.

(** Close [exists new, chronicle w' = chronicle w ++ new /\ _] once both
    chronicles are explicit. *)
Ltac chron :=
  first [ exists []; rewrite app_nil_r; split; [reflexivity|]
        | rewrite <- ?app_assoc; simpl; eexists; split; [reflexivity|] ].

Ltac rewrite_hyps :=
  repeat match goal with
  | H : ?x = true |- context [?x] => rewrite H
  | H : ?x = false |- context [?x] => rewrite H
  | H : ?x = Ok _ |- context [?x] => rewrite H
  | H : ?x = Raise _ |- context [?x] => rewrite H
  | H : ?x = Some _ |- context [?x] => rewrite H
  | H : ?x = None |- context [?x] => rewrite H
  end.

(** Go through a membership in an explicit list of events. *)
Ltac split_elem H :=
  repeat (apply elem_of_cons in H as [H|H]);
  try (by apply elem_of_nil in H); try discriminate;
  try (injection H as -> -> -> -> -> -> ->); simplify_eq/=.

(** Membership in a list that evaluates. *)
Ltac in_list :=
  vm_compute; repeat first [apply list_elem_of_here | apply list_elem_of_further].

Ltac find_adjacent :=
  first [ by exists [], _ | by eexists [_], _ | by eexists [_; _], _
        | by eexists [_; _; _], _ | by eexists [_; _; _; _], _ ].

Lemma element_Category_Some element category :
  element_Category element = Ok category -> Category_ element = Some category.
Proof. unfold element_Category. destruct (Category_ element); congruence. Qed.

(** ** One pass of the element loop *)

Lemma guarded_element_events h view ts covered total idx el w r w' :
  guarded_element h view ts covered total idx el w = (r, w') ->
  exists new, chronicle w' = chronicle w ++ new /\
              Forall (pass_event h view ts covered total idx el) new.
Proof.
  intros H. exec; chron.
  all: repeat (apply Forall_cons; split); try apply Forall_nil; simpl; eauto.
  all: repeat match goal with
       | H : element_Category _ = Ok _ |- _ => apply element_Category_Some in H
       end.
  all: repeat split; eauto 10.
  all: intros; congruence.
Qed.

Lemma guarded_element_frame h view ts covered total idx el w r w' :
  guarded_element h view ts covered total idx el w = (r, w') ->
  same_run_state w w' /\
  ignored_tag_types w ⊆ ignored_tag_types w' /\
  next_Id w <= next_Id w' /\ (alerts w <= alerts w')%nat.
Proof.
  intros H. unfold same_run_state. exec.
  all: repeat split; try reflexivity; try set_solver; lia.
Qed.

(** The guard turns every [Exception] of the pass into a log line. *)
Lemma guarded_element_catches h view ts covered total idx el w msg w' :
  guarded_element h view ts covered total idx el w <> (Raise (Exception msg), w').
Proof. intros H. exec. Qed.

(** ** Following the tags through a pass *)

Lemma tags_tracked_quiet h ts w new w' :
  doc_tags w' = doc_tags w -> next_Id w' = next_Id w ->
  Forall (fun e => event_tag_id e = None) new ->
  tags_tracked h ts w new w'.
Proof.
  intros Hd Hn Hf. rewrite Forall_forall in Hf.
  unfold tags_tracked. rewrite Hd, Hn.
  split; [lia|]. split; [done|]. split; [by left|]. split.
  - intros e id He Hid. apply Hf in He. congruence.
  - intros id v el leader mode orientation point He. apply Hf in He. discriminate.
Qed.

Lemma follows_directly_app_l a b l1 l2 :
  follows_directly a b l1 -> follows_directly a b (l1 ++ l2).
Proof. intros (x & y & ->). exists x, (y ++ l2). by rewrite <- app_assoc. Qed.

Lemma follows_directly_app_r a b l1 l2 :
  follows_directly a b l2 -> follows_directly a b (l1 ++ l2).
Proof. intros (x & y & ->). exists (l1 ++ x), y. by rewrite <- app_assoc. Qed.

Lemma tags_tracked_trans h ts w1 n1 w2 n2 w3 :
  tags_tracked h ts w1 n1 w2 -> tags_tracked h ts w2 n2 w3 ->
  tags_tracked h ts w1 (n1 ++ n2) w3.
Proof.
  intros (A1 & A2 & A3 & A4 & A5) (B1 & B2 & B3 & B4 & B5).
  unfold tags_tracked. split; [lia|]. split; [|split; [|split]].
  - intros tag Ht Hlt. apply B2; [by apply A2 | lia].
  - intros tag Ht. destruct (B3 _ Ht) as [Ht2|?]; [|right; lia].
    destruct (A3 _ Ht2) as [?|?]; [by left | right; lia].
  - intros e id He Hid. apply elem_of_app in He as [He|He].
    + specialize (A4 _ _ He Hid). lia.
    + specialize (B4 _ _ He Hid). lia.
  - intros id v el leader mode orientation point He.
    apply elem_of_app in He as [He|He].
    + assert (next_Id w1 <= id < next_Id w2) as Hid by (by eapply A4).
      destruct (A5 _ _ _ _ _ _ _ He) as (text & Hc & Hfate).
      exists text. split; [done|]. unfold tag_fate in *.
      assert (TagDeleted id ∉ n2) as Hn2.
      { intros Hd. specialize (B4 _ _ Hd eq_refl). lia. }
      destruct (check_blank_tag ts && py_not_str (strip (TagText (tag_made id v el text)))).
      * destruct (delete_element h id).
        -- destruct Hfate as [Hf Hno]. split; [by apply follows_directly_app_l|].
           intros t Ht. destruct (B3 _ Ht) as [?|?]; [by apply Hno | lia].
        -- destruct Hfate as [Hnd Hin]. split.
           ++ intros Hd. apply elem_of_app in Hd as [?|?]; tauto.
           ++ apply B2; [done | simpl; lia].
      * destruct Hfate as [Hnd Hin]. split.
        -- intros Hd. apply elem_of_app in Hd as [?|?]; tauto.
        -- apply B2; [done | simpl; lia].
    + assert (next_Id w2 <= id < next_Id w3) as Hid by (by eapply B4).
      destruct (B5 _ _ _ _ _ _ _ He) as (text & Hc & Hfate).
      exists text. split; [done|]. unfold tag_fate in *.
      assert (TagDeleted id ∉ n1) as Hn1.
      { intros Hd. specialize (A4 _ _ Hd eq_refl). lia. }
      destruct (check_blank_tag ts && py_not_str (strip (TagText (tag_made id v el text)))).
      * destruct (delete_element h id).
        -- destruct Hfate as [Hf Hno]. split; [by apply follows_directly_app_r | done].
        -- destruct Hfate as [Hnd Hin]. split; [|done].
           intros Hd. apply elem_of_app in Hd as [?|?]; tauto.
      * destruct Hfate as [Hnd Hin]. split; [|done].
        intros Hd. apply elem_of_app in Hd as [?|?]; tauto.
Qed.

Lemma guarded_element_tags h view ts covered total idx el w r w' :
  guarded_element h view ts covered total idx el w = (r, w') ->
  exists new, chronicle w' = chronicle w ++ new /\ tags_tracked h ts w new w'.
Proof.
  intros H. exec; chron.
  all: try (apply tags_tracked_quiet; [done | done | by repeat constructor]).
  all: unfold tags_tracked, tag_fate; simpl.
  all: (split; [lia|]); (split; [|split; [|split]]).
  all: try (intros tag Ht Hlt; try (apply list_elem_of_filter; split; [lia|]);
            apply elem_of_app; by left).
  all: try (intros tag Ht; try (apply list_elem_of_filter in Ht as [_ Ht]);
            apply elem_of_app in Ht as [?|Ht]; [by left|];
            apply list_elem_of_singleton in Ht; subst; right; simpl; lia).
  all: try (intros e id He Hid; split_elem He; lia).
  all: intros id v el0 leader mode orientation point He; split_elem He.
  all: eexists; (split; [eassumption|]); simpl; rewrite_hyps; simpl.
  all: try (split; [find_adjacent|]; intros t Ht; by apply list_elem_of_filter in Ht as [? _]).
  all: try (split; [intros Hd; split_elem Hd | apply elem_of_app; right; by apply list_elem_of_singleton]).
Qed.

(** ** The element loop *)

Lemma loop_event_cons h view ts covered total el rest e :
  loop_event h view ts covered total rest e ->
  loop_event h view ts covered total (el :: rest) e.
Proof.
  intros (idx & x & Hin & He). exists idx, x. split; [by apply elem_of_cons; right | done].
Qed.

Lemma loop_event_here h view ts covered total idx el rest e :
  pass_event h view ts covered total idx el e ->
  loop_event h view ts covered total (el :: rest) e.
Proof. intros He. exists idx, el. split; [by apply elem_of_cons; left | done]. Qed.

Lemma element_loop_events h view ts covered total elements :
  forall idx w r w',
    element_loop h view ts covered total idx elements w = (r, w') ->
    exists new, chronicle w' = chronicle w ++ new /\
                Forall (loop_event h view ts covered total elements) new.
Proof.
  induction elements as [|el rest IH]; intros idx w r w' H; simpl in H.
  - unfold ret in H. simplify_eq. exists []. by rewrite app_nil_r.
  - unfold bind in H.
    destruct (guarded_element h view ts covered total idx el w) as [[f|e] w1] eqn:Hg.
    + apply guarded_element_events in Hg as (n1 & Hc1 & Hf1).
      assert (Forall (loop_event h view ts covered total (el :: rest)) n1) as Hf1'.
      { eapply Forall_impl; [exact Hf1|]. intros e. apply loop_event_here. }
      destruct f.
      * apply IH in H as (n2 & Hc2 & Hf2).
        exists (n1 ++ n2). split; [by rewrite Hc2, Hc1, app_assoc|].
        apply Forall_app. split; [done|].
        eapply Forall_impl; [exact Hf2|]. intros e. apply loop_event_cons.
      * unfold ret in H. simplify_eq. by exists n1.
    + simplify_eq. apply guarded_element_events in Hg as (n1 & Hc1 & Hf1).
      exists n1. split; [done|].
      eapply Forall_impl; [exact Hf1|]. intros e0. apply loop_event_here.
Qed.

Lemma same_run_state_refl w : same_run_state w w.
Proof. by unfold same_run_state. Qed.

Lemma same_run_state_trans w1 w2 w3 :
  same_run_state w1 w2 -> same_run_state w2 w3 -> same_run_state w1 w3.
Proof. unfold same_run_state. intros (?&?&?&?&?) (?&?&?&?&?). repeat split; congruence. Qed.

Lemma element_loop_frame h view ts covered total elements :
  forall idx w r w',
    element_loop h view ts covered total idx elements w = (r, w') ->
    same_run_state w w' /\
    ignored_tag_types w ⊆ ignored_tag_types w' /\
    next_Id w <= next_Id w' /\ (alerts w <= alerts w')%nat.
Proof.
  induction elements as [|el rest IH]; intros idx w r w' H; simpl in H.
  - unfold ret in H. simplify_eq. split; [apply same_run_state_refl|]. by repeat split.
  - unfold bind in H.
    destruct (guarded_element h view ts covered total idx el w) as [[f|e] w1] eqn:Hg;
      apply guarded_element_frame in Hg as (Hs & Hi & Hn & Ha).
    + destruct f.
      * apply IH in H as (Hs2 & Hi2 & Hn2 & Ha2).
        split; [by eapply same_run_state_trans|].
        repeat split; [by etrans | lia | lia].
      * unfold ret in H. by simplify_eq.
    + by simplify_eq.
Qed.


(** ** Gathering the identifiers already tagged *)

Lemma log_to_nil w : log_to w [] = w.
Proof. destruct w. unfold log_to. simpl. by rewrite app_nil_r. Qed.

Lemma log_to_log_to w a b : log_to (log_to w a) b = log_to w (a ++ b).
Proof. unfold log_to. simpl. by rewrite app_assoc. Qed.

Lemma collect_already_tagged_spec ver existing_tags :
  forall acc w r w',
    collect_already_tagged ver existing_tags acc w = (r, w') ->
    exists errs,
      w' = log_to w errs /\ Forall is_tag_error errs /\
      (r = Ok (already_tagged_ids ver existing_tags ∪ acc) \/ r = Raise SystemExit).
Proof.
  induction existing_tags as [|tag rest IH]; intros acc w r w' H; simpl in H.
  - unfold ret in H. simplify_eq. exists []. rewrite log_to_nil.
    split; [done|]. split; [constructor|]. left. f_equal.
    unfold already_tagged_ids. simpl. set_solver.
  - unfold bind at 1 in H. unfold try_except, bind, lift, ret, print, emit in H.
    destruct (tagged_ids_of ver tag) as [found|[msg|]] eqn:Ht; simpl in H.
    + apply IH in H as (errs & -> & Hf & Hr). exists errs.
      split; [done|]. split; [done|].
      destruct Hr as [->| ->]; [left|by right]. f_equal.
      unfold already_tagged_ids. simpl. rewrite Ht. set_solver.
    + apply IH in H as (errs & -> & Hf & Hr).
      exists (Printed (MsgTagError msg) :: errs).
      split; [unfold log_to; simpl; by rewrite <- app_assoc|].
      split; [constructor; [by eexists|done]|].
      destruct Hr as [->| ->]; [left|by right]. f_equal.
      unfold already_tagged_ids. simpl. rewrite Ht. set_solver.
    + simplify_eq. exists []. rewrite log_to_nil.
      split; [done|]. split; [constructor|by right].
Qed.

(** Which identifiers the gathered set holds. *)
Lemma elem_of_already_tagged_ids ver existing_tags i :
  i ∈ already_tagged_ids ver existing_tags <->
  exists tag found, tag ∈ existing_tags /\ tagged_ids_of ver tag = Ok found /\ i ∈ found.
Proof.
  unfold already_tagged_ids. rewrite elem_of_union_list. split.
  - intros (X & HX & Hi). apply list_elem_of_fmap in HX as (tag & -> & Htag).
    destruct (tagged_ids_of ver tag) as [found|e] eqn:Ht; [|set_solver].
    exists tag, found. split; [done|]. split; [done|]. by apply elem_of_list_to_set in Hi.
  - intros (tag & found & Htag & Ht & Hi).
    exists (list_to_set found). split; [|by apply elem_of_list_to_set].
    apply list_elem_of_fmap. exists tag. by rewrite Ht.
Qed.

(** ** One view *)

Lemma tag_elements_in_view_inv h view elements w r w' :
  tag_elements_in_view h view elements w = (r, w') ->
  view_run h view elements w r w'.
Proof.
  unfold tag_elements_in_view. intros H.
  unfold bind at 1 in H. unfold lift in H.
  destruct (get_revit_version h) as [ver|e] eqn:Hv; simpl in H.
  2:{ simplify_eq. by constructor. }
  assert (forall l,
    mkWorld (doc_tags w) (next_Id w) (transaction w) (snapshot w)
            (committed_tags w) (ignored_tag_types w) (element_cache w)
            (S (loads w)) (alerts w)
            ((chronicle w ++ [Printed (MsgVersion ver)]) ++ l)
    = log_to (count_load w) (Printed (MsgVersion ver) :: l)) as Hw.
  { intros l. unfold log_to, count_load. simpl. by rewrite <- app_assoc. }
  unfold bind at 1 in H. unfold print, emit in H. simpl in H.
  unfold bind at 1 in H. unfold config_load_toggle_settings in H. simpl in H.
  destruct (load_toggle_settings h (loads w)) as [ts|e] eqn:Hl; simpl in H.
  2:{ simplify_eq. rewrite Hw. by apply vr_settings_fail. }
  unfold bind at 1 in H. unfold gets in H. simpl in H.
  unfold bind at 1 in H.
  match type of H with
  | context [collect_already_tagged ?v ?t ?a ?w0] =>
      destruct (collect_already_tagged v t a w0) as [r1 w1] eqn:Hc
  end.
  apply collect_already_tagged_spec in Hc as (errs & -> & Hf & Hr).
  change (tags_in_view view _) with (tags_in_view view w) in H.
  unfold log_to in H. simpl in H. rewrite <- app_assoc in H. simpl in H.
  rewrite Hw in H.
  destruct Hr as [->| ->].
  - rewrite (right_id_L ∅ (∪)) in H. by eapply vr_loop.
  - simplify_eq. by eapply vr_tags_exit.
Qed.

(** ** Lifting what holds of every pass to the loop and to the view *)

Section LoopRelation.
Context (h : Host) (view : View) (ts : ToggleSettings) (covered : gset Z)
        (total : nat).
Context (R : World -> list event -> World -> Prop).
Hypothesis R_refl : forall w, R w [] w.
Hypothesis R_trans : forall w1 n1 w2 n2 w3,
  R w1 n1 w2 -> R w2 n2 w3 -> R w1 (n1 ++ n2) w3.
Hypothesis R_pass : forall idx el w r w1,
  guarded_element h view ts covered total idx el w = (r, w1) ->
  exists new, chronicle w1 = chronicle w ++ new /\ R w new w1.

Lemma element_loop_rel elements :
  forall idx w r w',
    element_loop h view ts covered total idx elements w = (r, w') ->
    exists new, chronicle w' = chronicle w ++ new /\ R w new w'.
Proof.
  induction elements as [|el rest IH]; intros idx w r w' H; simpl in H.
  - unfold ret in H. simplify_eq. exists []. by rewrite app_nil_r.
  - unfold bind in H.
    destruct (guarded_element h view ts covered total idx el w)
      as [[f|e] w1] eqn:Hg; apply R_pass in Hg as (n1 & Hc1 & HR1).
    + destruct f.
      * apply IH in H as (n2 & Hc2 & HR2).
        exists (n1 ++ n2). split; [by rewrite Hc2, Hc1, app_assoc|].
        by eapply R_trans.
      * unfold ret in H. simplify_eq. by exists n1.
    + simplify_eq. by exists n1.
Qed.
End LoopRelation.

Lemma element_loop_tags h view ts covered total elements idx w r w' :
  element_loop h view ts covered total idx elements w = (r, w') ->
  exists new, chronicle w' = chronicle w ++ new /\ tags_tracked h ts w new w'.
Proof.
  apply element_loop_rel.
  - intros w0. apply tags_tracked_quiet; [done | done | constructor].
  - apply tags_tracked_trans.
  - intros. by eapply guarded_element_tags.
Qed.

Lemma is_tag_error_no_tag errs :
  Forall is_tag_error errs -> Forall (fun e => event_tag_id e = None) errs.
Proof. intros Hf. eapply Forall_impl; [exact Hf|]. by intros e [msg ->]. Qed.

Lemma tag_elements_in_view_tags h view elements w r w' :
  tag_elements_in_view h view elements w = (r, w') ->
  exists new ts,
    chronicle w' = chronicle w ++ new /\
    tags_tracked h ts w new w' /\
    (forall ts', load_toggle_settings h (loads w) = Ok ts' -> ts' = ts).
Proof.
  intros H. apply tag_elements_in_view_inv in H.
  destruct H as [e Hv | ver e Hv Hl | ver ts errs Hv Hl Hf | ver ts errs r w' Hv Hl Hf Hloop].
  - exists [], (match load_toggle_settings h (loads w) with
                 | Ok ts => ts
                 | Raise _ => mkToggles false false false
                 end).
    rewrite app_nil_r. split; [done|]. split; [|by intros ts' ->].
    apply tags_tracked_quiet; [done | done | constructor].
  - eexists _, (mkToggles false false false). split; [reflexivity|].
    split; [|intros; congruence].
    apply tags_tracked_quiet; [done | done | by repeat constructor].
  - eexists _, ts. split; [reflexivity|]. split; [|intros; congruence].
    apply tags_tracked_quiet; [done | done |].
    repeat (constructor; [done|]). by apply is_tag_error_no_tag.
  - apply element_loop_tags in Hloop as (new & Hc & Ht). simpl in Hc.
    exists ((Printed (MsgVersion ver) :: LoadToggleSettings :: errs) ++ new), ts.
    split; [by rewrite Hc, app_assoc|]. split; [|intros; congruence].
    eapply tags_tracked_trans; [|exact Ht].
    apply tags_tracked_quiet; [done | done |].
    repeat (constructor; [done|]). by apply is_tag_error_no_tag.
Qed.

(** Every creation, deletion and alert of a call of the tagger comes from
    its element loop, run with the settings loaded at the start of the call
    and the identifiers gathered from the tags the view had. *)
Lemma tag_elements_in_view_events h view elements w r w' :
  tag_elements_in_view h view elements w = (r, w') ->
  exists new,
    chronicle w' = chronicle w ++ new /\
    Forall (fun e =>
              (exists m, e = Printed m) \/ e = LoadToggleSettings \/
              exists ver ts,
                get_revit_version h = Ok ver /\
                load_toggle_settings h (loads w) = Ok ts /\
                loop_event h view ts
                  (already_tagged_ids ver (tags_in_view view w))
                  (length elements) elements e) new.
Proof.
  intros H. apply tag_elements_in_view_inv in H.
  assert (forall errs, Forall is_tag_error errs ->
            Forall (fun e => (exists m, e = Printed m) \/ e = LoadToggleSettings \/
              exists ver ts,
                get_revit_version h = Ok ver /\
                load_toggle_settings h (loads w) = Ok ts /\
                loop_event h view ts
                  (already_tagged_ids ver (tags_in_view view w))
                  (length elements) elements e) errs) as Herrs.
  { intros errs Hf. eapply Forall_impl; [exact Hf|].
    intros e [msg ->]. left. by eexists. }
  destruct H as [e Hv | ver e Hv Hl | ver ts errs Hv Hl Hf | ver ts errs r w' Hv Hl Hf Hloop].
  - exists []. by rewrite app_nil_r.
  - eexists. split; [reflexivity|].
    constructor; [left; by eexists|]. constructor; [by right; left|constructor].
  - eexists. split; [reflexivity|].
    constructor; [left; by eexists|]. constructor; [by right; left|]. by apply Herrs.
  - apply element_loop_events in Hloop as (new & Hc & Hfl). simpl in Hc.
    exists ((Printed (MsgVersion ver) :: LoadToggleSettings :: errs) ++ new).
    split; [by rewrite Hc, app_assoc|].
    apply Forall_app. split.
    + constructor; [left; by eexists|]. constructor; [by right; left|]. by apply Herrs.
    + eapply Forall_impl; [exact Hfl|]. intros e He. right. right. by exists ver, ts.
Qed.

Lemma events_of_spec {A} (m : M A) w r w' new :
  m w = (r, w') -> chronicle w' = chronicle w ++ new -> events_of m w = new.
Proof.
  intros Hm Hc. unfold events_of. rewrite Hm. simpl. rewrite Hc.
  by rewrite drop_app_length.
Qed.

Lemma run_eq {A} (m : M A) w : m w = (result_of m w, world_after m w).
Proof. unfold result_of, world_after. by destruct (m w). Qed.

(** ** [strip] and blank labels *)

(** [is_space], written with ranges, accepts exactly the listed characters. *)
Lemma is_space_spec c : is_space c = existsb (N.eqb c) unicode_whitespace.
Proof.
  apply eq_true_iff_eq. rewrite existsb_exists. unfold is_space. split.
  - intros H. exists c. split; [|apply N.eqb_refl].
    rewrite !orb_true_iff, !andb_true_iff, !N.leb_le, !N.eqb_eq in H.
    unfold unicode_whitespace. simpl. lia.
  - intros (x & Hin & Hx). apply N.eqb_eq in Hx. subst x.
    rewrite !orb_true_iff, !andb_true_iff, !N.leb_le, !N.eqb_eq.
    unfold unicode_whitespace in Hin. simpl in Hin. lia.
Qed.

Lemma whitespace_only_forallb s : whitespace_only s = forallb is_space s.
Proof.
  unfold whitespace_only. induction s as [|c s IH]; [done|].
  cbn [forallb]. by rewrite IH, is_space_spec.
Qed.

Lemma lstrip_whitespace s : whitespace_only s = true -> lstrip s = [].
Proof.
  rewrite whitespace_only_forallb. induction s as [|c s IH]; simpl; [done|].
  intros H. apply andb_true_iff in H as [Hc Hs]. rewrite Hc. by apply IH.
Qed.

Lemma lstrip_other s :
  whitespace_only s = false ->
  exists c rest, lstrip s = c :: rest /\ is_space c = false.
Proof.
  rewrite whitespace_only_forallb. induction s as [|c s IH]; simpl; [done|].
  intros H. destruct (is_space c) eqn:Hc; simpl in H.
  - by apply IH.
  - by exists c, s.
Qed.

Lemma rstrip_keeps_head c rest :
  is_space c = false -> rstrip (c :: rest) <> [].
Proof. intros Hc. simpl. rewrite Hc. by destruct (rstrip rest). Qed.

Lemma strip_empty_iff s : strip s = [] <-> whitespace_only s = true.
Proof.
  unfold strip. split.
  - intros H. destruct (whitespace_only s) eqn:Hw; [done|].
    apply lstrip_other in Hw as (c & rest & Hl & Hc). rewrite Hl in H.
    by apply rstrip_keeps_head in H.
  - intros H. by rewrite (lstrip_whitespace _ H).
Qed.

Lemma py_not_str_true s : py_not_str s = true <-> s = [].
Proof. by destruct s. Qed.

(** ** The claims about what the tagger creates *)

(** What the events of a call of the tagger are, with the settings it loaded. *)
Lemma view_event_of h view elements w e :
  e ∈ events_of (tag_elements_in_view h view elements) w ->
  (exists m, e = Printed m) \/ e = LoadToggleSettings \/
  exists ver ts,
    get_revit_version h = Ok ver /\
    load_toggle_settings h (loads w) = Ok ts /\
    loop_event h view ts (already_tagged_ids ver (tags_in_view view w))
               (length elements) elements e.
Proof.
  intros He.
  destruct (tag_elements_in_view_events h view elements w _ _ (run_eq _ _))
    as (new & Hc & Hf).
  rewrite (events_of_spec _ _ _ _ _ (run_eq _ _) Hc) in He.
  rewrite Forall_forall in Hf. by apply Hf.
Qed.

Lemma creation_of h view elements w id v el leader mode orientation point :
  TagCreated id v el leader mode orientation point
    ∈ events_of (tag_elements_in_view h view elements) w ->
  exists ver ts idx,
    get_revit_version h = Ok ver /\
    load_toggle_settings h (loads w) = Ok ts /\
    el ∈ elements /\
    pass_event h view ts (already_tagged_ids ver (tags_in_view view w))
               (length elements) idx el
               (TagCreated id v el leader mode orientation point).
Proof.
  intros He. apply view_event_of in He as [[m ?]|[?|He]]; [done|done|].
  destruct He as (ver & ts & Hv & Hl & idx & x & Hin & Hp).
  assert (el = x) as -> by (by destruct Hp as [? _]).
  by exists ver, ts, idx.
Qed.

Lemma ViewType_eqb_eq a b : ViewType_eqb a b = true <-> a = b.
Proof. by destruct a, b. Qed.

(** Claim C8.  Every tag the tagger creates is created by category and
    horizontal; it has a leader exactly when the element's category is named
    "Windows", the view is a floor plan and the window-in-plan toggle of the
    settings loaded for this view is on.  In every other combination the
    no-leader variant is used. *)
Theorem leader_only_for_windows_in_plan h view elements w ts
    id v el leader mode orientation point :
  load_toggle_settings h (loads w) = Ok ts ->
  TagCreated id v el leader mode orientation point
    ∈ events_of (tag_elements_in_view h view elements) w ->
  mode = TM_ADDBY_CATEGORY /\ orientation = Horizontal /\
  exists category,
    Category_ el = Some category /\
    (leader = true <->
     cat_Name category = "Windows" /\ view_ViewType view = FloorPlan /\
     tag_windows_in_plan ts = true).
Proof.
  intros Hl He. apply creation_of in He as (ver & ts' & idx & Hv & Hl' & Hin & Hp).
  assert (ts' = ts) as -> by congruence.
  destruct Hp as (_ & _ & _ & _ & -> & -> & category & bbox & text & Hc & _ & _ & -> & _).
  split; [done|]. split; [done|]. exists category. split; [done|].
  unfold wants_leader. rewrite !andb_true_iff, String.eqb_eq, ViewType_eqb_eq.
  tauto.
Qed.

Lemma leader_only_for_windows_in_plan_witness :
  TM_ADDBY_CATEGORY = TM_ADDBY_CATEGORY /\ Horizontal = Horizontal /\
  exists category,
    Category_ ex_window = Some category /\
    (true = true <->
     cat_Name category = "Windows" /\ view_ViewType ex_level1 = FloorPlan /\
     tag_windows_in_plan ex_all_on = true).
Proof.
  apply (leader_only_for_windows_in_plan ex_plain_host ex_level1 ex_elements
           ex_world ex_all_on 1001 1 ex_window true TM_ADDBY_CATEGORY
           Horizontal (center_of ex_box)).
  - reflexivity.
  - vm_compute. repeat first [apply list_elem_of_here | apply list_elem_of_further].
Defined.

Lemma element_Category_no_exit el : element_Category el <> Raise SystemExit.
Proof. unfold element_Category. by destruct (Category_ el). Qed.

Lemma visible_no_exit view el :
  is_element_visible_in_view view el <> Raise SystemExit.
Proof.
  unfold is_element_visible_in_view.
  destruct (element_Category el) as [c|e] eqn:Hc; [done|].
  intros [= ->]. by apply element_Category_no_exit in Hc.
Qed.

(** Without bounding box and without prompt, the pass ends at the
    [continue] of line 88 at the latest. *)
Lemma pass_without_box h view ts covered total idx el w :
  get_BoundingBox el = Ok None ->
  no_prompt_needed h w el ->
  result_of (guarded_element h view ts covered total idx el) w = Ok NextElement.
Proof.
  intros Hb Hno. unfold result_of, no_prompt_needed in *.
  destruct (guarded_element h view ts covered total idx el w) as [r w'] eqn:H.
  simpl. revert H. unfold_script. rewrite Hb. intros H.
  repeat (case_match; simplify_eq/=); norm_bool; try done.
  all: try (by exfalso; eapply element_Category_no_exit).
  all: try (by exfalso; eapply visible_no_exit).
  all: match goal with
       | Hc : element_Category _ = Ok ?c |- _ =>
           apply element_Category_Some in Hc; destruct (Hno _ Hc); congruence
       end.
Qed.

(** Claim C9, as amended.  For an element without bounding box the
    center-point computation returns [None], the tagger creates no tag for
    it in any view, and no [Exception] leaves its pass (when no prompt is
    due for its category the pass simply goes on to the next element).
    For an element with a bounding box the computation returns the point
    Min + 0.5 * (Max - Min), each coordinate computed in doubles, and every
    tag that is created is placed at the point computed for its element. *)
Theorem no_bounding_box_no_tag :
  (forall h view elements w el id v leader mode orientation point,
     get_BoundingBox el = Ok None ->
     get_projected_center_point el = Ok None /\
     (TagCreated id v el leader mode orientation point
        ∉ events_of (tag_elements_in_view h view elements) w) /\
     (forall ts covered total idx w0 msg,
        result_of (guarded_element h view ts covered total idx el) w0
        <> Raise (Exception msg)) /\
     (forall ts covered total idx w0,
        no_prompt_needed h w0 el ->
        result_of (guarded_element h view ts covered total idx el) w0
        = Ok NextElement)) /\
  (forall el bbox,
     get_BoundingBox el = Ok (Some bbox) ->
     get_projected_center_point el
     = Ok (Some (mkXYZ
                   (xyz_X (bb_Min bbox)
                    + 0.5 * (xyz_X (bb_Max bbox) - xyz_X (bb_Min bbox)))
                   (xyz_Y (bb_Min bbox)
                    + 0.5 * (xyz_Y (bb_Max bbox) - xyz_Y (bb_Min bbox)))
                   (xyz_Z (bb_Min bbox)
                    + 0.5 * (xyz_Z (bb_Max bbox) - xyz_Z (bb_Min bbox)))))) /\
  (forall h view elements w id v el leader mode orientation point,
     TagCreated id v el leader mode orientation point
       ∈ events_of (tag_elements_in_view h view elements) w ->
     exists bbox,
       get_BoundingBox el = Ok (Some bbox) /\
       get_projected_center_point el = Ok (Some point)).
Proof.
  assert (forall h view elements w id v el leader mode orientation point,
     TagCreated id v el leader mode orientation point
       ∈ events_of (tag_elements_in_view h view elements) w ->
     exists bbox,
       get_BoundingBox el = Ok (Some bbox) /\
       get_projected_center_point el = Ok (Some point)) as Hpresent.
  { intros h view elements w id v el leader mode orientation point He.
    apply creation_of in He as (ver & ts & idx & _ & _ & _ & Hp).
    destruct Hp as (_ & _ & _ & _ & _ & _ & category & bbox & text & _ & Hb & -> & _).
    exists bbox. split; [done|]. unfold get_projected_center_point. by rewrite Hb. }
  split; [|split; [|exact Hpresent]].
  - intros h view elements w el id v leader mode orientation point Hb.
    split; [unfold get_projected_center_point; by rewrite Hb|]. split.
    + intros He. apply Hpresent in He as (bbox & Hb' & _). congruence.
    + split.
      * intros ts covered total idx w0 msg Hr. unfold result_of in Hr.
        destruct (guarded_element h view ts covered total idx el w0) as [r w'] eqn:Hg.
        simpl in Hr. subst r. by apply guarded_element_catches in Hg.
      * intros ts covered total idx w0 Hno. by apply pass_without_box.
  - intros el bbox Hb. unfold get_projected_center_point. by rewrite Hb.
Qed.

Lemma no_bounding_box_no_tag_witness :
  (get_projected_center_point ex_door2 = Ok None /\
   (TagCreated 1001 1 ex_door2 false TM_ADDBY_CATEGORY Horizontal (center_of ex_box)
      ∉ events_of (tag_elements_in_view ex_plain_host ex_level1 ex_elements) ex_world) /\
   (forall ts covered total idx w0 msg,
      result_of (guarded_element ex_plain_host ex_level1 ts covered total idx ex_door2) w0
      <> Raise (Exception msg)) /\
   (forall ts covered total idx w0,
      no_prompt_needed ex_plain_host w0 ex_door2 ->
      result_of (guarded_element ex_plain_host ex_level1 ts covered total idx ex_door2) w0
      = Ok NextElement)) /\
  get_projected_center_point ex_door1 = Ok (Some (mkXYZ 1 2 3)) /\
  get_projected_center_point ex_skew_door
  = Ok (Some (mkXYZ (-0x1.f333333333334p+0) 2 3)) /\
  (exists bbox,
     get_BoundingBox ex_door1 = Ok (Some bbox) /\
     get_projected_center_point ex_door1 = Ok (Some (mkXYZ 1 2 3))).
Proof.
  destruct no_bounding_box_no_tag as (Habsent & Hpresent & Hplaced).
  split; [|split; [|split]].
  - apply (Habsent ex_plain_host ex_level1 ex_elements ex_world ex_door2). reflexivity.
  - exact (Hpresent ex_door1 ex_box eq_refl).
  - exact (Hpresent ex_skew_door ex_skew_box eq_refl).
  - apply (Hplaced ex_plain_host ex_level1 ex_elements ex_world 1000 1 ex_door1
                   false TM_ADDBY_CATEGORY Horizontal (mkXYZ 1 2 3)).
    in_list.
Defined.

(** Against claim C9 as stated: for a box that reaches from x = -5 to
    x = 1.1 (the double nearest to it) the tag is placed at
    x = -1.9500000000000002, one unit in the last place away from the
    midpoint of the two corners, which is the double -1.95. *)
Lemma placement_is_not_the_midpoint :
  let run := tag_elements_in_view ex_plain_host ex_skew_view [ex_skew_door] in
  let point := mkXYZ (-0x1.f333333333334p+0) 2 3 in
  get_BoundingBox ex_skew_door = Ok (Some ex_skew_box) /\
  get_projected_center_point ex_skew_door = Ok (Some point) /\
  TagCreated 1000 3 ex_skew_door false TM_ADDBY_CATEGORY Horizontal point
    ∈ events_of run ex_world /\
  midpoint point (bb_Min ex_skew_box) (bb_Max ex_skew_box) = false /\
  midpoint (mkXYZ (-0x1.f333333333333p+0) 2 3)
           (bb_Min ex_skew_box) (bb_Max ex_skew_box) = true.
Proof.
  split; [reflexivity|]. split; [reflexivity|]. split; [in_list|].
  split; vm_compute; reflexivity.
Qed.

(** Claim C1.  An element whose identifier is read from one of the tags the
    view already holds gets no new tag in that view from the tagger.  Hence
    a second run over the view creates no duplicate for an element whose
    tag from an earlier call is still in the document. *)
Theorem covered_element_is_not_tagged_again :
  (forall h view elements w ver tag found i,
     get_revit_version h = Ok ver ->
     tag ∈ tags_in_view view w ->
     tagged_ids_of ver tag = Ok found ->
     i ∈ found ->
     Forall (fun e => is_creation_of i (view_Id view) e = false)
            (events_of (tag_elements_in_view h view elements) w)) /\
  (forall h view elements w id el leader mode orientation point
          h2 elements2 w2,
     TagCreated id (view_Id view) el leader mode orientation point
       ∈ events_of (tag_elements_in_view h view elements) w ->
     TagDeleted id ∉ events_of (tag_elements_in_view h view elements) w ->
     doc_tags w2 = doc_tags (world_after (tag_elements_in_view h view elements) w) ->
     Forall (fun e => is_creation_of (Id el) (view_Id view) e = false)
            (events_of (tag_elements_in_view h2 view elements2) w2)).
Proof.
  assert (forall h view elements w ver tag found i,
     get_revit_version h = Ok ver ->
     tag ∈ tags_in_view view w ->
     tagged_ids_of ver tag = Ok found ->
     i ∈ found ->
     Forall (fun e => is_creation_of i (view_Id view) e = false)
            (events_of (tag_elements_in_view h view elements) w)) as Hfirst.
  { intros h view elements w ver tag found i Hv Htag Hfound Hi.
    apply Forall_forall. intros e He.
    destruct e; try done. simpl.
    apply creation_of in He as (ver' & ts & idx & Hv' & _ & _ & Hp).
    assert (ver' = ver) as -> by congruence.
    destruct Hp as (_ & _ & Hnot & _).
    apply andb_false_iff. left. apply Z.eqb_neq. intros Heq.
    apply Hnot. rewrite Heq. apply elem_of_already_tagged_ids. by exists tag, found. }
  split; [exact Hfirst|].
  intros h view elements w id el leader mode orientation point h2 elements2 w2
         Hcreated Hkept Hdoc.
  destruct (get_revit_version h2) as [ver2|e] eqn:Hv2.
  2:{ apply Forall_forall. intros e0 He0.
      destruct e0; try done.
      apply creation_of in He0 as (ver' & _ & _ & Hv' & _). congruence. }
  destruct (tag_elements_in_view_tags h view elements w _ _ (run_eq _ _))
    as (new & ts & Hc & Htr & _).
  rewrite (events_of_spec _ _ _ _ _ (run_eq _ _) Hc) in Hcreated, Hkept.
  destruct Htr as (_ & _ & _ & _ & Hfate).
  destruct (Hfate _ _ _ _ _ _ _ Hcreated) as (text & Htext & Hf).
  assert (tag_made id (view_Id view) el text
            ∈ doc_tags (world_after (tag_elements_in_view h view elements) w)) as Hin.
  { unfold tag_fate in Hf.
    destruct (check_blank_tag ts && _); [|by destruct Hf].
    destruct (delete_element h id); [|by destruct Hf].
    destruct Hf as [(l1 & l2 & Hnew) _]. exfalso. apply Hkept.
    rewrite Hnew. apply elem_of_app. right. apply elem_of_cons. right.
    apply elem_of_cons. by left. }
  eapply (Hfirst h2 view elements2 w2 ver2 (tag_made id (view_Id view) el text) [Id el]).
  - done.
  - unfold tags_in_view. rewrite Hdoc. apply list_elem_of_filter. by split.
  - unfold tagged_ids_of. simpl. by destruct (ver2 <=? 2021).
  - by apply list_elem_of_singleton.
Qed.

Lemma covered_element_is_not_tagged_again_witness :
  Forall (fun e => is_creation_of 101 (view_Id ex_level1) e = false)
         (events_of (tag_elements_in_view ex_plain_host ex_level1 ex_elements)
                    ex_tagged_world).
Proof.
  apply (proj1 covered_element_is_not_tagged_again ex_plain_host ex_level1
               ex_elements ex_tagged_world 2023
               (tag_made 900 1 ex_door1 "D1") [101] 101).
  - reflexivity.
  - in_list.
  - reflexivity.
  - in_list.
Defined.

(** Claim C7.  With the blank-tag check on, a tag whose label is empty or
    consists of whitespace only (the characters [str.strip()] removes,
    listed one by one in [unicode_whitespace]) is deleted by the very next
    call after its creation, and the document holds no tag of its id when
    the tagger is done with the view.  With the check off, or a label with
    a character that is no whitespace, the tag is not deleted and is in the
    document at the end. *)
Theorem blank_tag_is_deleted_at_once h view elements w ts
    id v el leader mode orientation point :
  load_toggle_settings h (loads w) = Ok ts ->
  TagCreated id v el leader mode orientation point
    ∈ events_of (tag_elements_in_view h view elements) w ->
  exists text,
    create_tag_text h v el leader mode orientation point = Ok text /\
    (check_blank_tag ts = true -> whitespace_only text = true ->
     delete_element h id = Ok tt ->
     follows_directly (TagCreated id v el leader mode orientation point)
                      (TagDeleted id)
                      (events_of (tag_elements_in_view h view elements) w) /\
     forall t,
       t ∈ doc_tags (world_after (tag_elements_in_view h view elements) w) ->
       tag_Id t <> id) /\
    (check_blank_tag ts = false \/ whitespace_only text = false ->
     (TagDeleted id ∉ events_of (tag_elements_in_view h view elements) w) /\
     tag_made id v el text
       ∈ doc_tags (world_after (tag_elements_in_view h view elements) w)).
Proof.
  intros Hl He.
  destruct (tag_elements_in_view_tags h view elements w _ _ (run_eq _ _))
    as (new & ts' & Hc & Htr & Hts).
  rewrite (Hts _ Hl) in *. clear Hts.
  rewrite (events_of_spec _ _ _ _ _ (run_eq _ _) Hc) in *.
  destruct Htr as (_ & _ & _ & _ & Hfate).
  destruct (Hfate _ _ _ _ _ _ _ He) as (text & Htext & Hf).
  exists text. split; [done|].
  unfold tag_fate in Hf. simpl in Hf. split.
  - intros Hb Hs Hd. apply strip_empty_iff in Hs. rewrite Hb, Hs, Hd in Hf. exact Hf.
  - intros [Hb|Hs].
    + by rewrite Hb in Hf.
    + assert (py_not_str (strip text) = false) as Hn.
      { destruct (py_not_str (strip text)) eqn:Hp; [|done].
        apply py_not_str_true, strip_empty_iff in Hp. congruence. }
      by rewrite Hn, andb_false_r in Hf.
Qed.

Lemma blank_tag_is_deleted_at_once_witness :
  (follows_directly
     (TagCreated 1000 1 ex_door1 false TM_ADDBY_CATEGORY Horizontal (center_of ex_box))
     (TagDeleted 1000)
     (events_of (tag_elements_in_view ex_nbsp_host ex_level1 ex_elements) ex_world) /\
   forall t,
     t ∈ doc_tags (world_after
                     (tag_elements_in_view ex_nbsp_host ex_level1 ex_elements)
                     ex_world) ->
     tag_Id t <> 1000) /\
  ((TagDeleted 1001
      ∉ events_of (tag_elements_in_view ex_nbsp_host ex_level1 ex_elements) ex_world) /\
   tag_made 1001 1 ex_window "W1"
     ∈ doc_tags (world_after
                   (tag_elements_in_view ex_nbsp_host ex_level1 ex_elements)
                   ex_world)).
Proof.
  split.
  - destruct (blank_tag_is_deleted_at_once ex_nbsp_host ex_level1 ex_elements
                ex_world ex_all_on 1000 1 ex_door1 false TM_ADDBY_CATEGORY Horizontal
                (center_of ex_box))
      as (text & Htext & Hblank & _); [reflexivity | in_list |].
    injection Htext as <-. apply Hblank; reflexivity.
  - destruct (blank_tag_is_deleted_at_once ex_nbsp_host ex_level1 ex_elements
                ex_world ex_all_on 1001 1 ex_window true TM_ADDBY_CATEGORY Horizontal
                (center_of ex_box))
      as (text & Htext & _ & Hkept); [reflexivity | in_list |].
    injection Htext as <-. apply Hkept. right. reflexivity.
Defined.

(** ** Failures and repeated elements *)



Lemma element_Category_None element msg :
  element_Category element = Raise msg -> Category_ element = None.
Proof. unfold element_Category. destruct (Category_ element); congruence. Qed.

Lemma visible_needs_category view el e :
  is_element_visible_in_view view el = Raise e -> Category_ el = None.
Proof.
  unfold is_element_visible_in_view.
  destruct (element_Category el) eqn:Hc; [done|].
  intros _. by eapply element_Category_None.
Qed.

Lemma guarded_element_no_prompt h view ts covered total idx el w r w' :
  guarded_element h view ts covered total idx el w = (r, w') ->
  no_prompt_needed h w el ->
  r <> Ok ReturnFromView /\
  (r = Ok NextElement ->
   exists new, chronicle w' = chronicle w ++ new /\
               created_elements new
               = if passes_filters h view ts covered el then [el] else []).
Proof.
  intros H Hno. unfold no_prompt_needed in Hno. exec.
  all: repeat match goal with
       | H : element_Category _ = Ok _ |- _ => apply element_Category_Some in H
       | H : element_Category _ = Raise _ |- _ => apply element_Category_None in H
       | H : is_element_visible_in_view _ _ = Raise _ |- _ =>
           apply visible_needs_category in H
       end.
  all: try match goal with
       | Hc : Category_ _ = Some ?c, Hl : is_tag_type_loaded _ (cat_Id ?c) = false,
         Hi : cat_Id ?c ∉ _ |- _ =>
           exfalso; destruct (Hno _ Hc); [congruence | done]
       end.
  all: (split; [done|]); intros Hr; try discriminate; chron.
  all: match goal with
       | Hp : passes_filters _ _ _ _ _ = _ |- _ => revert Hp
       end.
  all: unfold passes_filters, center_of, wants_leader; simpl.
  all: try match goal with
       | H : ?P |- context [bool_decide ?P] => rewrite (bool_decide_eq_true_2 P H)
       end.
  all: try match goal with
       | H : ¬ ?P |- context [bool_decide ?P] => rewrite (bool_decide_eq_false_2 P H)
       end.
  all: repeat (rewrite_hyps; simpl).
  all: rewrite ?andb_false_r; done.
Qed.






(** ** The run: what the tagger leaves alone *)

Section ViewRelation.
Context (R : World -> list event -> World -> Prop).
Hypothesis R_refl : forall w, R w [] w.
Hypothesis R_trans : forall w1 n1 w2 n2 w3,
  R w1 n1 w2 -> R w2 n2 w3 -> R w1 (n1 ++ n2) w3.
Hypothesis R_pass : forall h view ts covered total idx el w r w1,
  guarded_element h view ts covered total idx el w = (r, w1) ->
  exists new, chronicle w1 = chronicle w ++ new /\ R w new w1.
Hypothesis R_preamble : forall w ver errs,
  Forall is_tag_error errs ->
  R w (Printed (MsgVersion ver) :: LoadToggleSettings :: errs)
    (log_to (count_load w) (Printed (MsgVersion ver) :: LoadToggleSettings :: errs)).

Lemma tag_elements_in_view_rel h view elements w r w' :
  tag_elements_in_view h view elements w = (r, w') ->
  exists new, chronicle w' = chronicle w ++ new /\ R w new w'.
Proof.
  intros H. apply tag_elements_in_view_inv in H.
  destruct H as [e Hv | ver e Hv Hl | ver ts errs Hv Hl Hf
                | ver ts errs r w' Hv Hl Hf Hloop].
  - exists []. rewrite app_nil_r. split; [done | apply R_refl].
  - eexists. split; [reflexivity|]. apply R_preamble. constructor.
  - eexists. split; [reflexivity|]. by apply R_preamble.
  - eapply (element_loop_rel h view ts _ _ R R_refl R_trans) in Hloop
      as (new & Hc & HR); [|by intros; eapply R_pass].
    simpl in Hc.
    exists ((Printed (MsgVersion ver) :: LoadToggleSettings :: errs) ++ new).
    split; [by rewrite Hc, app_assoc|].
    eapply R_trans; [|exact HR]. by apply R_preamble.
Qed.

Lemma for_each_view_rel h selected_views selected_elements :
  forall w r w',
    for_each_view h selected_views selected_elements w = (r, w') ->
    exists new, chronicle w' = chronicle w ++ new /\ R w new w'.
Proof.
  induction selected_views as [|view rest IH]; intros w r w' H; simpl in H.
  - unfold ret in H. simplify_eq. exists []. rewrite app_nil_r.
    split; [done | apply R_refl].
  - unfold bind in H.
    destruct (tag_elements_in_view h view selected_elements w) as [[[]|e] w1] eqn:Hv;
      apply tag_elements_in_view_rel in Hv as (n1 & Hc1 & HR1).
    + apply IH in H as (n2 & Hc2 & HR2).
      exists (n1 ++ n2). split; [by rewrite Hc2, Hc1, app_assoc|].
      by eapply R_trans.
    + simplify_eq. by exists n1.
Qed.
End ViewRelation.

Lemma tagger_step_refl w : tagger_step w [] w.
Proof. unfold tagger_step. by repeat split. Qed.

Lemma tagger_step_trans w1 n1 w2 n2 w3 :
  tagger_step w1 n1 w2 -> tagger_step w2 n2 w3 -> tagger_step w1 (n1 ++ n2) w3.
Proof.
  intros (A1 & A2 & A3 & A4 & A5 & A6) (B1 & B2 & B3 & B4 & B5 & B6).
  unfold tagger_step. split; [by apply Forall_app|].
  repeat split; try congruence. by etrans.
Qed.

Lemma pass_event_is_tagger_event h view ts covered total idx el e :
  pass_event h view ts covered total idx el e -> is_tagger_event e.
Proof. by destruct e. Qed.

Lemma tagger_step_pass h view ts covered total idx el w r w1 :
  guarded_element h view ts covered total idx el w = (r, w1) ->
  exists new, chronicle w1 = chronicle w ++ new /\ tagger_step w new w1.
Proof.
  intros H.
  pose proof (guarded_element_frame _ _ _ _ _ _ _ _ _ _ H)
    as ((? & ? & ? & ? & ?) & ? & _).
  apply guarded_element_events in H as (new & Hc & Hf).
  exists new. split; [done|]. unfold tagger_step. split; [|done].
  eapply Forall_impl; [exact Hf|]. intros e. apply pass_event_is_tagger_event.
Qed.

Lemma tagger_step_preamble w ver errs :
  Forall is_tag_error errs ->
  tagger_step w (Printed (MsgVersion ver) :: LoadToggleSettings :: errs)
    (log_to (count_load w) (Printed (MsgVersion ver) :: LoadToggleSettings :: errs)).
Proof.
  intros Hf. unfold tagger_step. split; [|done].
  repeat (constructor; [done|]).
  eapply Forall_impl; [exact Hf|]. by intros e [msg ->].
Qed.

Lemma for_each_view_step h selected_views selected_elements w r w' :
  for_each_view h selected_views selected_elements w = (r, w') ->
  exists new, chronicle w' = chronicle w ++ new /\ tagger_step w new w'.
Proof.
  apply for_each_view_rel.
  - apply tagger_step_refl.
  - apply tagger_step_trans.
  - apply tagger_step_pass.
  - apply tagger_step_preamble.
Qed.

Lemma approved_stay_quiet_refl w : approved_stay_quiet w [] w.
Proof. split; [done|]. intros c ans _ H. by apply elem_of_nil in H. Qed.

Lemma approved_stay_quiet_trans w1 n1 w2 n2 w3 :
  approved_stay_quiet w1 n1 w2 -> approved_stay_quiet w2 n2 w3 ->
  approved_stay_quiet w1 (n1 ++ n2) w3.
Proof.
  intros [A1 A2] [B1 B2]. split; [by etrans|].
  intros c ans Hc H. apply elem_of_app in H as [H|H].
  - by eapply A2.
  - eapply B2; [|exact H]. by apply A1.
Qed.

Lemma approved_stay_quiet_pass h view ts covered total idx el w r w1 :
  guarded_element h view ts covered total idx el w = (r, w1) ->
  exists new, chronicle w1 = chronicle w ++ new /\ approved_stay_quiet w new w1.
Proof.
  intros H. unfold approved_stay_quiet. exec; chron.
  all: (split; [set_solver|]); intros c ans Hc Hin; split_elem Hin; done.
Qed.

Lemma approved_stay_quiet_preamble w ver errs :
  Forall is_tag_error errs ->
  approved_stay_quiet w (Printed (MsgVersion ver) :: LoadToggleSettings :: errs)
    (log_to (count_load w) (Printed (MsgVersion ver) :: LoadToggleSettings :: errs)).
Proof.
  intros Hf. split; [done|]. intros c ans _ H.
  apply elem_of_cons in H as [?|H]; [done|].
  apply elem_of_cons in H as [?|H]; [done|].
  rewrite Forall_forall in Hf. by destruct (Hf _ H) as [msg ?].
Qed.

Lemma for_each_view_approved h selected_views selected_elements w r w' :
  for_each_view h selected_views selected_elements w = (r, w') ->
  exists new, chronicle w' = chronicle w ++ new /\ approved_stay_quiet w new w'.
Proof.
  apply for_each_view_rel.
  - apply approved_stay_quiet_refl.
  - apply approved_stay_quiet_trans.
  - apply approved_stay_quiet_pass.
  - apply approved_stay_quiet_preamble.
Qed.

(** The driver, once the views are done in [w1] having started in [w]. *)
Lemma driver_unfold h selected_views selected_elements w :
  tag_elements_in_selected_views h selected_views selected_elements w
  = match for_each_view h selected_views selected_elements (world_after t_Start w) with
    | (Ok _, w1) => t_Commit w1
    | (Raise (Exception msg), w1) => (Raise (Exception msg), world_after t_RollBack w1)
    | (Raise SystemExit, w1) => (Raise SystemExit, w1)
    end.
Proof.
  unfold tag_elements_in_selected_views, bind at 1. simpl.
  unfold try_except, bind. unfold world_after. simpl.
  destruct (for_each_view h selected_views selected_elements _) as [[[]|[msg|]] w1];
    reflexivity.
Qed.

Lemma result_of_eq {A} (m : M A) w r w' : m w = (r, w') -> result_of m w = r.
Proof. unfold result_of. by intros ->. Qed.

Lemma world_after_eq {A} (m : M A) w r w' : m w = (r, w') -> world_after m w = w'.
Proof. unfold world_after. by intros ->. Qed.


(** When the exit signal leaves the views, the driver neither commits nor
    rolls back: [except Exception] does not catch it. *)
Lemma exit_signal_leaves_transaction_open h selected_views selected_elements w :
  let run := tag_elements_in_selected_views h selected_views selected_elements in
  let views := for_each_view h selected_views selected_elements in
  result_of views (world_after t_Start w) = Raise SystemExit ->
  result_of run w = Raise SystemExit /\
  events_of run w = TransactionStart :: events_of views (world_after t_Start w) /\
  transaction (world_after run w) = Started /\
  world_after run w = world_after views (world_after t_Start w).
Proof.
  intros run views. subst run views.
  pose proof (driver_unfold h selected_views selected_elements w) as Hrun.
  set (w0 := world_after t_Start w) in *.
  assert (chronicle w0 = chronicle w ++ [TransactionStart]) as Hc0 by done.
  destruct (for_each_view h selected_views selected_elements w0) as [r w1] eqn:Hviews.
  destruct (for_each_view_step _ _ _ _ _ _ Hviews) as (new & Hc & Hstep).
  rewrite (events_of_spec _ _ _ _ _ Hviews Hc), (result_of_eq _ _ _ _ Hviews),
    (world_after_eq _ _ _ _ Hviews).
  destruct Hstep as (Hf & Ht & _).
  intros ->.
  rewrite (result_of_eq _ _ _ _ Hrun), (world_after_eq _ _ _ _ Hrun).
  split; [done|]. split; [|by rewrite Ht].
  apply (events_of_spec _ _ _ _ _ Hrun). by rewrite Hc, Hc0, <- !app_assoc.
Qed.

(** ** The settings, view by view *)

Lemma tag_elements_in_view_loads h view elements w w' :
  tag_elements_in_view h view elements w = (Ok tt, w') ->
  loads w' = S (loads w).
Proof.
  intros H. apply tag_elements_in_view_inv in H.
  inversion H as [ | | | ver ts errs r w'' Hv Hl Hf Hloop]; subst.
  apply element_loop_frame in Hloop as ((_ & _ & _ & -> & _) & _). done.
Qed.

Lemma for_each_view_loads h selected_views selected_elements :
  forall w w',
    for_each_view h selected_views selected_elements w = (Ok tt, w') ->
    loads w' = (loads w + length selected_views)%nat.
Proof.
  induction selected_views as [|view rest IH]; intros w w' H; simpl in H.
  - unfold ret in H. simplify_eq. simpl. lia.
  - unfold bind in H.
    destruct (tag_elements_in_view h view selected_elements w) as [[[]|e] w1] eqn:Hv;
      [|done].
    apply tag_elements_in_view_loads in Hv. apply IH in H. simpl. lia.
Qed.

(** Claim C4, as amended.  The settings are loaded once per call of the
    tagger, that is once per selected view: right after the version line
    and before the first element, never again during that view, and what
    is loaded governs every element of that view.  A run that processes all
    its views has loaded the settings once per view. *)
Theorem settings_loaded_once_per_view :
  (forall h view elements w ver,
     get_revit_version h = Ok ver ->
     exists rest,
       events_of (tag_elements_in_view h view elements) w
       = Printed (MsgVersion ver) :: LoadToggleSettings :: rest /\
       (LoadToggleSettings ∉ rest) /\
       loads (world_after (tag_elements_in_view h view elements) w) = S (loads w) /\
       forall ts,
         load_toggle_settings h (loads w) = Ok ts ->
         Forall (fun e =>
                   is_tag_error e \/
                   loop_event h view ts
                     (already_tagged_ids ver (tags_in_view view w))
                     (length elements) elements e) rest) /\
  (forall h selected_views selected_elements w,
     result_of (for_each_view h selected_views selected_elements) w = Ok tt ->
     loads (world_after (for_each_view h selected_views selected_elements) w)
     = (loads w + length selected_views)%nat).
Proof.
  split.
  - intros h view elements w ver Hv.
    unfold world_after.
    destruct (tag_elements_in_view h view elements w) as [r w'] eqn:Hrun.
    pose proof Hrun as Hinv. apply tag_elements_in_view_inv in Hinv.
    assert (forall errs, Forall is_tag_error errs -> LoadToggleSettings ∉ errs) as Hno.
    { intros errs Hf Hin. rewrite Forall_forall in Hf.
      by destruct (Hf _ Hin) as [msg ?]. }
    destruct Hinv as [e Hv' | ver' e Hv' Hl | ver' ts errs Hv' Hl Hf
                     | ver' ts errs r w' Hv' Hl Hf Hloop]; [congruence|..];
      assert (ver' = ver) as -> by congruence.
    + exists []. rewrite (events_of_spec _ _ _ _ _ Hrun eq_refl).
      split; [done|]. split; [by intros ?%elem_of_nil|]. split; [done|].
      intros ts Hts. congruence.
    + exists errs. rewrite (events_of_spec _ _ _ _ _ Hrun eq_refl).
      split; [done|]. split; [by apply Hno|]. split; [done|].
      intros ts' Hts. eapply Forall_impl; [exact Hf|]. by left.
    + pose proof (element_loop_frame _ _ _ _ _ _ _ _ _ _ Hloop)
        as ((_ & _ & _ & Hloads & _) & _).
      apply element_loop_events in Hloop as (new & Hc & Hfl). simpl in Hc, Hloads.
      exists (errs ++ new).
      rewrite (events_of_spec _ _ _ _
                 (Printed (MsgVersion ver) :: LoadToggleSettings :: errs ++ new) Hrun);
        [|by rewrite Hc, <- app_assoc].
      split; [done|]. split; [|split; [done|]].
      * intros Hin. apply elem_of_app in Hin as [Hin|Hin]; [by eapply Hno|].
        rewrite Forall_forall in Hfl. by destruct (Hfl _ Hin) as (? & ? & _ & ?).
      * intros ts' Hts. assert (ts' = ts) as -> by congruence.
        apply Forall_app. split.
        -- eapply Forall_impl; [exact Hf|]. by left.
        -- eapply Forall_impl; [exact Hfl|]. by right.
  - intros h selected_views selected_elements w Hr.
    pose proof (run_eq (for_each_view h selected_views selected_elements) w) as Hrun.
    rewrite Hr in Hrun. by apply for_each_view_loads in Hrun.
Qed.

(** ** Cancelling a selection *)

Lemma select_categories_stage h w r w' :
  select_categories h w = (r, w') ->
  exists new, chronicle w' = chronicle w ++ new /\
              stage_ok r new /\ document_untouched w w'.
Proof.
  unfold select_categories, SelectFromList, stage_ok, document_untouched.
  intros H. exec; chron.
  all: (split; [|done]).
  all: first [ right; split; [done|]; by repeat constructor
             | left; split; [by repeat constructor|]; intros; try discriminate;
               by repeat constructor ].
Qed.

Lemma collect_elements_stage h selected_categories :
  forall acc w r w',
    collect_elements h selected_categories acc w = (r, w') ->
    exists new, chronicle w' = chronicle w ++ new /\
                Forall (fun e => is_cancel e = false /\ is_quiet e = true) new /\
                document_untouched w w'.
Proof.
  induction selected_categories as [|category rest IH]; intros acc w r w' H; simpl in H.
  - unfold ret in H. simplify_eq. exists []. rewrite app_nil_r. by repeat split.
  - unfold bind at 1 in H. unfold lift in H.
    destruct (elements_of_category h (cat_Id category)) as [els|e]; simpl in H.
    2:{ simplify_eq. exists []. rewrite app_nil_r. by repeat split. }
    unfold bind at 1 in H. unfold cache_elements in H. simpl in H.
    unfold bind at 1 in H. unfold print, emit in H. simpl in H.
    apply IH in H as (new & Hc & Hf & Hd). simpl in Hc.
    exists (Printed (MsgCollected (cat_Name category) (map Id els)) :: new).
    split; [by rewrite Hc, <- app_assoc|]. split; [by constructor|done].
Qed.

Lemma select_elements_stage h selected_categories w r w' :
  select_elements h selected_categories w = (r, w') ->
  exists new, chronicle w' = chronicle w ++ new /\
              stage_ok r new /\ document_untouched w w'.
Proof.
  unfold select_elements, try_except. intros H.
  destruct (collect_elements h selected_categories [] w) as [r1 w1] eqn:Hc.
  apply collect_elements_stage in Hc as (new & Hc & Hf & Hd).
  assert (Forall (fun e => is_cancel e = false) new) as Hnc.
  { eapply Forall_impl; [exact Hf|]. by intros e [? ?]. }
  assert (Forall (fun e => is_quiet e = true) new) as Hq.
  { eapply Forall_impl; [exact Hf|]. by intros e [? ?]. }
  destruct r1 as [els|[msg|]]; simplify_eq.
  - exists new. split; [done|]. split; [by left|done].
  - unfold bind, print, emit, raise in H. simpl in H. simplify_eq. simpl.
    exists (new ++ [Printed (MsgStageError "select_elements" msg)]).
    split; [by rewrite Hc, app_assoc|]. split; [|done].
    left. split; [|intros; discriminate].
    apply Forall_app. split; [done|by repeat constructor].
  - exists new. split; [done|]. split; [by right|done].
Qed.

Lemma select_views_stage h w r w' :
  select_views h w = (r, w') ->
  exists new, chronicle w' = chronicle w ++ new /\
              stage_ok r new /\ document_untouched w w'.
Proof.
  unfold select_views, SelectFromList, stage_ok, document_untouched.
  intros H. exec; chron.
  all: (split; [|done]).
  all: first [ right; split; [done|]; by repeat constructor
             | left; split; [by repeat constructor|]; intros; try discriminate;
               by repeat constructor ].
Qed.

Lemma driver_never_cancels h selected_views selected_elements w r w' :
  tag_elements_in_selected_views h selected_views selected_elements w = (r, w') ->
  exists new, chronicle w' = chronicle w ++ new /\
              Forall (fun e => is_cancel e = false) new.
Proof.
  rewrite driver_unfold.
  destruct (for_each_view h selected_views selected_elements (world_after t_Start w))
    as [r1 w1] eqn:Hviews.
  apply for_each_view_step in Hviews as (new & Hc & Hf & _). simpl in Hc.
  assert (Forall (fun e => is_cancel e = false) new) as Hnc.
  { eapply Forall_impl; [exact Hf|]. intros e He. by destruct e. }
  intros H. unfold t_Commit, t_RollBack, world_after in H.
  destruct r1 as [[]|[msg|]]; simplify_eq; simpl.
  - exists (TransactionStart :: new ++ [TransactionCommit]).
    split; [by rewrite Hc, <- !app_assoc|].
    constructor; [done|]. apply Forall_app. split; [done|by repeat constructor].
  - exists (TransactionStart :: new ++ [TransactionRollBack]).
    split; [by rewrite Hc, <- !app_assoc|].
    constructor; [done|]. apply Forall_app. split; [done|by repeat constructor].
  - exists (TransactionStart :: new).
    split; [by rewrite Hc, <- !app_assoc|]. by constructor.
Qed.

(** ** Cancelling through the stages *)

Lemma cancel_safe_final {A} (m : M A) : cancel_safe m -> cancel_final m.
Proof.
  intros Hm w r w' H. apply Hm in H as (new & Hc & Hs & Hd).
  exists new. split; [done|].
  destruct Hs as [[Hnc _]|[-> Hq]]; [by left | by right].
Qed.

Lemma cancel_final_bind {A B} (m : M A) (k : A -> M B) :
  cancel_safe m -> (forall a, cancel_final (k a)) -> cancel_final (bind m k).
Proof.
  intros Hm Hk w r w' H. unfold bind in H.
  destruct (m w) as [[a|e] w1] eqn:Hmw; apply Hm in Hmw as (n1 & Hc1 & Hs1 & Hd1).
  - destruct Hs1 as [[Hnc1 Hq1]|[? _]]; [|done].
    specialize (Hq1 a eq_refl).
    apply Hk in H as (n2 & Hc2 & Hs2).
    exists (n1 ++ n2). split; [by rewrite Hc2, Hc1, app_assoc|].
    destruct Hs2 as [Hnc2|(-> & Hq2 & Hd2)].
    + left. by apply Forall_app.
    + right. split; [done|]. split; [by apply Forall_app|].
      destruct Hd1, Hd2. split; congruence.
  - simplify_eq. exists n1. split; [done|].
    destruct Hs1 as [[Hnc1 _]|[Heq Hq1]]; [by left|].
    right. by simplify_eq.
Qed.

Lemma run_stages_cancel h : cancel_final (run_stages h).
Proof.
  unfold run_stages.
  apply cancel_final_bind; [intros w r w'; apply select_categories_stage|].
  intros selected_categories.
  apply cancel_final_bind; [intros w r w'; apply select_elements_stage|].
  intros selected_elements.
  apply cancel_final_bind; [intros w r w'; apply select_views_stage|].
  intros selected_views.
  destruct (truthy selected_elements && truthy selected_views).
  - intros w r w' H. apply driver_never_cancels in H as (new & Hc & Hf).
    exists new. split; [done | by left].
  - intros w r w' H. unfold ret in H. simplify_eq. exists [].
    rewrite app_nil_r. split; [done|]. left. constructor.
Qed.

(** Claim C6.  When a selection dialog of the run returns [None], the
    script ends normally: no transaction call, no tag made or deleted, no
    error line, the document and the transaction as they were. *)
Theorem cancelled_selection_is_silent h w title names :
  ListShown title names (Ok None) ∈ events_of (main h) w ->
  result_of (main h) w = Ok tt /\
  Forall (fun e => is_quiet e = true) (events_of (main h) w) /\
  doc_tags (world_after (main h) w) = doc_tags w /\
  transaction (world_after (main h) w) = transaction w.
Proof.
  intros Hin.
  unfold result_of, world_after, events_of in *. unfold main in *.
  destruct (run_stages h w) as [r w'] eqn:Hrun.
  apply run_stages_cancel in Hrun as (new & Hc & Hs).
  assert (is_cancel (ListShown title names (Ok None)) = true) as Hcancel by done.
  destruct r as [[]|[msg|]]; simpl in *.
  - rewrite Hc, drop_app_length in Hin.
    destruct Hs as [Hnc|[? _]]; [|done].
    rewrite Forall_forall in Hnc. apply Hnc in Hin. simpl in Hin. discriminate.
  - rewrite Hc, <- app_assoc, drop_app_length in Hin.
    destruct Hs as [Hnc|[? _]]; [|done].
    apply elem_of_app in Hin as [Hin|Hin].
    + rewrite Forall_forall in Hnc. apply Hnc in Hin. simpl in Hin. discriminate.
    + by apply list_elem_of_singleton in Hin.
  - rewrite Hc, drop_app_length in *.
    destruct Hs as [Hnc|(_ & Hq & Hd1 & Hd2)].
    + rewrite Forall_forall in Hnc. apply Hnc in Hin. simpl in Hin. discriminate.
    + done.
Qed.

Lemma cancelled_selection_is_silent_witness :
  result_of (main ex_cancel_views_host) ex_world = Ok tt /\
  Forall (fun e => is_quiet e = true) (events_of (main ex_cancel_views_host) ex_world) /\
  doc_tags (world_after (main ex_cancel_views_host) ex_world) = doc_tags ex_world /\
  transaction (world_after (main ex_cancel_views_host) ex_world) = transaction ex_world.
Proof.
  apply (cancelled_selection_is_silent ex_cancel_views_host ex_world
           "Select Views" ["Level 1"; "Level 2"]).
  in_list.
Defined.

(** ** The prompt for a category without tag type *)

Lemma pass_to_prompt h view ts covered total idx el category w :
  reaches_prompt h view ts covered el category w ->
  guarded_element h view ts covered total idx el w
  = match forms_alert h (alerts w) category with
    | Ok a =>
        if answer_is a "No" then (Ok ReturnFromView, asked h total idx category w)
        else guarded_element h view ts covered total idx el w
    | Raise SystemExit => (Raise SystemExit, asked h total idx category w)
    | Raise (Exception msg) =>
        (Ok NextElement,
         log_to (asked h total idx category w) [Printed (MsgElementError (Id el) msg)])
    end.
Proof.
  intros (Hcov & Hvis & Hcat & Hload & Hign).
  assert (element_Category el = Ok category) as Hcat'.
  { unfold element_Category. by rewrite Hcat. }
  destruct (forms_alert h (alerts w) category) as [a|[msg|]] eqn:Ha.
  1: destruct (answer_is a "No") eqn:Hno; [|done].
  all: unfold guarded_element, element_body, try_except, bind, emit, lift, gets,
         ret, alert, print, asked, log_to; simpl.
  all: rewrite (bool_decide_eq_false_2 _ Hcov).
  all: destruct (toggle_visibility ts); [rewrite (Hvis eq_refl)|]; simpl.
  all: rewrite Hcat'; simpl; rewrite Hload, (bool_decide_eq_true_2 _ Hign); simpl.
  all: rewrite Ha; simpl; rewrite ?Hno; simpl.
  all: by rewrite <- ?app_assoc.
Qed.

Lemma pass_approved h view ts covered total idx el category w a :
  reaches_prompt h view ts covered el category w ->
  forms_alert h (alerts w) category = Ok a ->
  answer_is a "No" = false ->
  cat_Id category ∈ ignored_tag_types (world_after (guarded_element h view ts covered total idx el) w) /\
  exists more,
    events_of (guarded_element h view ts covered total idx el) w
    = UpdateProgress idx total :: AlertShown (cat_Id category) (Ok a) :: more.
Proof.
  intros (Hcov & Hvis & Hcat & Hload & Hign) Ha Hno.
  assert (element_Category el = Ok category) as Hcat'.
  { unfold element_Category. by rewrite Hcat. }
  unfold world_after.
  destruct (guarded_element h view ts covered total idx el w) as [r w'] eqn:H.
  assert (cat_Id category ∈ ignored_tag_types w' /\
          exists more, chronicle w' = chronicle w ++
            UpdateProgress idx total :: AlertShown (cat_Id category) (Ok a) :: more)
    as [Hin (more & Hc)].
  { revert H.
    unfold guarded_element, element_body, try_except, bind, emit, lift, gets,
      ret, alert, ignore_tag_type; simpl.
    rewrite (bool_decide_eq_false_2 _ Hcov).
    destruct (toggle_visibility ts); [rewrite (Hvis eq_refl)|]; simpl.
    all: rewrite Hcat'; simpl; rewrite Hload, (bool_decide_eq_true_2 _ Hign); simpl.
    all: rewrite Ha; simpl; rewrite Hno; simpl.
    all: intros H; exec.
    all: (split; [set_solver|]); rewrite <- ?app_assoc; simpl; by eexists. }
  split; [done|]. exists more. by apply (events_of_spec _ _ _ _ _ H).
Qed.

Lemma element_loop_approved h view ts covered total elements idx w r w' :
  element_loop h view ts covered total idx elements w = (r, w') ->
  exists new, chronicle w' = chronicle w ++ new /\ approved_stay_quiet w new w'.
Proof.
  apply element_loop_rel.
  - apply approved_stay_quiet_refl.
  - apply approved_stay_quiet_trans.
  - intros. by eapply approved_stay_quiet_pass.
Qed.

(** With [exitscript=True] the dialog can end the script instead of
    returning: the exit signal passes the guard of the pass and leaves the
    element loop at once. *)
Lemma exit_signal_leaves_the_loop h view ts covered total idx el rest w category :
  reaches_prompt h view ts covered el category w ->
  forms_alert h (alerts w) category = Raise SystemExit ->
  let loop := element_loop h view ts covered total idx (el :: rest) in
  result_of loop w = Raise SystemExit /\
  events_of loop w
  = [UpdateProgress idx total; AlertShown (cat_Id category) (Raise SystemExit)].
Proof.
  intros Hpath Ha loop. subst loop.
  pose proof (pass_to_prompt h view ts covered total idx el category w Hpath) as Hpass.
  rewrite Ha in Hpass.
  assert (element_loop h view ts covered total idx (el :: rest) w
          = (Raise SystemExit, asked h total idx category w)) as Hloop.
  { simpl. unfold bind. by rewrite Hpass. }
  rewrite (result_of_eq _ _ _ _ Hloop). split; [done|].
  apply (events_of_spec _ _ _ _ _ Hloop). simpl. by rewrite Ha.
Qed.

(** An exception or exit signal out of one view ends the loop over the
    views. *)
Lemma for_each_view_stops h view more_views selected_elements w e w1 :
  tag_elements_in_view h view selected_elements w = (Raise e, w1) ->
  for_each_view h (view :: more_views) selected_elements w = (Raise e, w1).
Proof. intros Hview. simpl. unfold bind at 1. by rewrite Hview. Qed.

Lemma settings_loaded_once_per_view_witness :
  (exists rest,
     events_of (tag_elements_in_view ex_changing_host ex_level1 ex_elements) ex_world
     = Printed (MsgVersion 2023) :: LoadToggleSettings :: rest /\
     (LoadToggleSettings ∉ rest) /\
     loads (world_after (tag_elements_in_view ex_changing_host ex_level1 ex_elements)
                        ex_world) = 1%nat /\
     forall ts,
       load_toggle_settings ex_changing_host (loads ex_world) = Ok ts ->
       Forall (fun e =>
                 is_tag_error e \/
                 loop_event ex_changing_host ex_level1 ts
                   (already_tagged_ids 2023 (tags_in_view ex_level1 ex_world))
                   (length ex_elements) ex_elements e) rest) /\
  loads (world_after (for_each_view ex_changing_host [ex_level1; ex_level2] ex_elements)
                     ex_world) = 2%nat.
Proof.
  split.
  - apply (proj1 settings_loaded_once_per_view ex_changing_host ex_level1
                 ex_elements ex_world 2023). reflexivity.
  - apply (proj2 settings_loaded_once_per_view ex_changing_host
                 [ex_level1; ex_level2] ex_elements ex_world).
    vm_compute. reflexivity.
Defined.
(** Against claim C4 as stated: in a run over two views the settings are
    loaded twice, and when the settings changed in between, the window is
    tagged without leader in Level 1 and with leader in Level 2. *)
Lemma settings_loaded_for_each_view :
  let run := main ex_changing_host in
  loads (world_after run ex_world) = 2%nat /\
  events_of run ex_world !! 8%nat = Some LoadToggleSettings /\
  events_of run ex_world !! 15%nat = Some LoadToggleSettings /\
  events_of run ex_world !! 13%nat
  = Some (TagCreated 1001 1 ex_window false TM_ADDBY_CATEGORY Horizontal
                     (center_of ex_box)) /\
  events_of run ex_world !! 20%nat
  = Some (TagCreated 1003 2 ex_window true TM_ADDBY_CATEGORY Horizontal
                     (center_of ex_box)).
Proof. vm_compute. repeat split. Qed.

(** * The rest of the script *)

(** ** Visibility *)

Lemma is_element_visible_iff view el :
  is_element_visible_in_view view el = Ok true <->
  exists category,
    Category_ el = Some category /\ (cat_Id category, Id el) ∈ view_elements view.
Proof.
  unfold is_element_visible_in_view, element_Category.
  destruct (Category_ el) as [c|]; [|split; [done | by intros (? & ? & _)]].
  split.
  - intros [= H]. exists c. split; [done|].
    apply existsb_exists in H as ([a b] & Hin & Hb). simpl in Hb.
    apply Z.eqb_eq in Hb. subst b.
    apply list_elem_of_In, list_elem_of_filter in Hin as [Ha Hin]. simpl in Ha.
    by subst a.
  - intros (c' & [= <-] & Hin). f_equal. apply existsb_exists.
    exists (cat_Id c, Id el). split; [|apply Z.eqb_refl].
    apply list_elem_of_In, list_elem_of_filter. by split.
Qed.

(** Property X1.  With the visibility toggle of the settings loaded for the
    view on, every element the tagger tags in the view has a category and
    is among the elements of that category the view shows. *)
Theorem only_visible_elements_are_tagged h view elements w ts
    id v el leader mode orientation point :
  load_toggle_settings h (loads w) = Ok ts ->
  toggle_visibility ts = true ->
  TagCreated id v el leader mode orientation point
    ∈ events_of (tag_elements_in_view h view elements) w ->
  exists category,
    Category_ el = Some category /\ (cat_Id category, Id el) ∈ view_elements view.
Proof.
  intros Hl Hon He.
  apply creation_of in He as (ver & ts' & idx & _ & Hl' & _ & Hp).
  assert (ts' = ts) as -> by congruence.
  destruct Hp as (_ & _ & _ & Hvis & _).
  by apply is_element_visible_iff, Hvis.
Qed.

Lemma only_visible_elements_are_tagged_witness :
  exists category,
    Category_ ex_door1 = Some category /\
    (cat_Id category, Id ex_door1) ∈ view_elements ex_level1.
Proof.
  apply (only_visible_elements_are_tagged ex_plain_host ex_level1 ex_elements
           ex_world ex_all_on 1000 1 ex_door1 false TM_ADDBY_CATEGORY Horizontal
           (center_of ex_box)).
  - reflexivity.
  - reflexivity.
  - in_list.
Defined.

(** ** Reading the existing tags *)

(** Property X2.  A tag whose reader raises an [Exception] costs one
    error line and contributes nothing: the first loop of the tagger always
    ends with the set of the identifiers read from the tags that could be
    read, on top of what was gathered before, and prints one line per tag
    that could not, in the order of the tags. *)
Theorem unreadable_tags_are_skipped ver existing_tags :
  forall acc w,
    (forall tag, tag ∈ existing_tags -> tagged_ids_of ver tag <> Raise SystemExit) ->
    collect_already_tagged ver existing_tags acc w
    = (Ok (already_tagged_ids ver existing_tags ∪ acc),
       log_to w (tag_errors ver existing_tags)) /\
    forall i,
      i ∈ already_tagged_ids ver existing_tags ∪ acc <->
      i ∈ acc \/
      exists tag found,
        tag ∈ existing_tags /\ tagged_ids_of ver tag = Ok found /\ i ∈ found.
Proof.
  intros acc w Hno. split.
  2:{ intros i. rewrite elem_of_union, elem_of_already_tagged_ids. tauto. }
  revert acc w Hno.
  induction existing_tags as [|tag rest IH]; intros acc w Hno; simpl.
  - unfold ret, tag_errors. simpl. rewrite log_to_nil. f_equal. f_equal.
    unfold already_tagged_ids. simpl. set_solver.
  - assert (forall t, t ∈ rest -> tagged_ids_of ver t <> Raise SystemExit) as Hrest.
    { intros t Ht. apply Hno. by apply list_elem_of_further. }
    pose proof (Hno tag (list_elem_of_here _ _)) as Htag.
    unfold bind at 1. unfold try_except, bind, lift, ret, print, emit.
    unfold tag_errors. simpl.
    destruct (tagged_ids_of ver tag) as [found|[msg|]] eqn:Ht; [| |done]; simpl.
    + rewrite (IH _ _ Hrest). f_equal. f_equal.
      unfold already_tagged_ids. simpl. rewrite Ht. set_solver.
    + rewrite (IH _ _ Hrest). f_equal.
      * f_equal. unfold already_tagged_ids. simpl. rewrite Ht. set_solver.
      * unfold log_to. simpl. by rewrite <- app_assoc.
Qed.

Lemma unreadable_tags_are_skipped_witness :
  collect_already_tagged 2023 [ex_broken_tag; tag_made 900 1 ex_door1 "D1"] ∅ ex_world
  = (Ok (already_tagged_ids 2023 [ex_broken_tag; tag_made 900 1 ex_door1 "D1"] ∪ ∅),
     log_to ex_world (tag_errors 2023 [ex_broken_tag; tag_made 900 1 ex_door1 "D1"])) /\
  forall i,
    i ∈ already_tagged_ids 2023 [ex_broken_tag; tag_made 900 1 ex_door1 "D1"] ∪ ∅ <->
    i ∈ (∅ : gset Z) \/
    exists tag found,
      tag ∈ [ex_broken_tag; tag_made 900 1 ex_door1 "D1"] /\
      tagged_ids_of 2023 tag = Ok found /\ i ∈ found.
Proof.
  apply (unreadable_tags_are_skipped 2023
           [ex_broken_tag; tag_made 900 1 ex_door1 "D1"] ∅ ex_world).
  intros tag Hin.
  apply elem_of_cons in Hin as [->|Hin]; [discriminate|].
  apply elem_of_cons in Hin as [->|Hin]; [discriminate|].
  by apply elem_of_nil in Hin.
Defined.

(** ** Progress *)

Lemma progress_of_app l1 l2 :
  progress_of (l1 ++ l2) = progress_of l1 ++ progress_of l2.
Proof. apply omap_app. Qed.

Lemma guarded_element_progress h view ts covered total idx el w r w' :
  guarded_element h view ts covered total idx el w = (r, w') ->
  exists new, chronicle w' = chronicle w ++ new /\
              progress_of new = [(idx, total)].
Proof. intros H. exec; by chron. Qed.

Lemma element_loop_progress h view ts covered total elements :
  forall idx w r w',
    element_loop h view ts covered total idx elements w = (r, w') ->
    exists new k,
      chronicle w' = chronicle w ++ new /\
      (k <= length elements)%nat /\
      progress_of new = map (fun i => (i, total)) (seq idx k) /\
      ((forall el, el ∈ elements -> no_prompt_needed h w el) ->
       r = Ok tt -> k = length elements).
Proof.
  induction elements as [|el rest IH]; intros idx w r w' H; simpl in H.
  - unfold ret in H. simplify_eq. exists [], 0%nat. rewrite app_nil_r. by repeat split.
  - unfold bind in H.
    destruct (guarded_element h view ts covered total idx el w) as [[f|e] w1] eqn:Hg.
    + pose proof (guarded_element_frame _ _ _ _ _ _ _ _ _ _ Hg) as (_ & Hi & _).
      pose proof (guarded_element_progress _ _ _ _ _ _ _ _ _ _ Hg) as (n1 & Hc1 & Hp1).
      destruct f.
      * apply IH in H as (n2 & k & Hc2 & Hk & Hp2 & Hall).
        exists (n1 ++ n2), (S k). split; [by rewrite Hc2, Hc1, app_assoc|].
        split; [simpl; lia|]. split.
        -- rewrite progress_of_app, Hp1, Hp2. reflexivity.
        -- intros Hno Hr. simpl. f_equal. apply Hall; [|done].
           intros x Hx c Hc.
           destruct (Hno x (list_elem_of_further _ _ _ Hx) c Hc) as [?|?];
             [by left | right; set_solver].
      * unfold ret in H. simplify_eq. exists n1, 1%nat.
        split; [done|]. split; [simpl; lia|]. split; [done|].
        intros Hno _. exfalso.
        apply guarded_element_no_prompt in Hg as [Hnr _]; [done|].
        apply Hno. apply list_elem_of_here.
    + simplify_eq.
      pose proof (guarded_element_progress _ _ _ _ _ _ _ _ _ _ Hg) as (n1 & Hc1 & Hp1).
      exists n1, 1%nat. split; [done|]. split; [simpl; lia|]. split; [done|].
      intros _ Hr. discriminate.
Qed.

(** Property X3.  The progress bar is told the indices 0, 1, 2, ... in this
    order, each with the number of selected elements as total, and never
    more often than there are elements; when no prompt is due and the call
    returns, every element is reported. *)
Theorem progress_counts_the_elements h view elements w :
  let run := tag_elements_in_view h view elements in
  exists k,
    (k <= length elements)%nat /\
    progress_of (events_of run w)
    = map (fun i => (i, length elements)) (seq 0 k) /\
    ((forall el, el ∈ elements -> no_prompt_needed h w el) ->
     result_of run w = Ok tt -> k = length elements).
Proof.
  intros run. subst run. unfold result_of.
  destruct (tag_elements_in_view h view elements w) as [r w'] eqn:Hrun. simpl.
  pose proof Hrun as Hinv. apply tag_elements_in_view_inv in Hinv.
  assert (forall errs, Forall is_tag_error errs ->
            progress_of (Printed (MsgVersion 0) :: LoadToggleSettings :: errs) = [])
    as Hpre.
  { intros errs Hf. simpl. induction Hf as [|e errs [msg ->] _ IH]; [done|exact IH]. }
  destruct Hinv as [e Hv | ver e Hv Hl | ver ts errs Hv Hl Hf
                   | ver ts errs r w' Hv Hl Hf Hloop].
  - exists 0%nat. rewrite (events_of_spec _ _ _ _ [] Hrun); [|by rewrite app_nil_r].
    split; [lia|]. split; [done|]. intros _ Hr. discriminate.
  - exists 0%nat. rewrite (events_of_spec _ _ _ _ _ Hrun eq_refl).
    split; [lia|]. split; [done|]. intros _ Hr. discriminate.
  - exists 0%nat. rewrite (events_of_spec _ _ _ _ _ Hrun eq_refl).
    split; [lia|]. split; [by apply (Hpre errs)|]. intros _ Hr. discriminate.
  - apply element_loop_progress in Hloop as (new & k & Hc & Hk & Hp & Hall).
    simpl in Hc. exists k.
    rewrite (events_of_spec _ _ _ _
               ((Printed (MsgVersion ver) :: LoadToggleSettings :: errs) ++ new) Hrun);
      [|by rewrite Hc, <- app_assoc].
    split; [done|]. split.
    + rewrite progress_of_app, Hp.
      assert (progress_of (Printed (MsgVersion ver) :: LoadToggleSettings :: errs) = [])
        as ->; [|done].
      by apply (Hpre errs).
    + intros Hno Hr. by apply Hall.
Qed.

Lemma progress_counts_the_elements_witness :
  exists k,
    (k <= length ex_elements)%nat /\
    progress_of (events_of (tag_elements_in_view ex_plain_host ex_level1 ex_elements)
                           ex_world)
    = map (fun i => (i, length ex_elements)) (seq 0 k) /\
    ((forall el, el ∈ ex_elements -> no_prompt_needed ex_plain_host ex_world el) ->
     result_of (tag_elements_in_view ex_plain_host ex_level1 ex_elements) ex_world
     = Ok tt ->
     k = length ex_elements).
Proof.
  apply (progress_counts_the_elements ex_plain_host ex_level1 ex_elements ex_world).
Defined.

(** ** The approved categories *)

Lemma approved_by_asking_refl w : approved_by_asking w [] w.
Proof. intros c Hc. by left. Qed.

Lemma approved_by_asking_trans w1 n1 w2 n2 w3 :
  approved_by_asking w1 n1 w2 -> approved_by_asking w2 n2 w3 ->
  approved_by_asking w1 (n1 ++ n2) w3.
Proof.
  intros H1 H2 c Hc. destruct (H2 c Hc) as [Hc2|(a & Ha & Hno)].
  - destruct (H1 c Hc2) as [?|(a & Ha & Hno)]; [by left|].
    right. exists a. split; [|done]. apply elem_of_app. by left.
  - right. exists a. split; [|done]. apply elem_of_app. by right.
Qed.

Lemma approved_by_asking_pass h view ts covered total idx el w r w1 :
  guarded_element h view ts covered total idx el w = (r, w1) ->
  exists new, chronicle w1 = chronicle w ++ new /\ approved_by_asking w new w1.
Proof.
  intros H. unfold approved_by_asking. exec; chron.
  all: intros c Hc; try (by left).
  all: apply elem_of_union in Hc as [Hc|Hc]; [|by left].
  all: apply elem_of_singleton in Hc; subst c; right; eexists; split; [|eassumption].
  all: repeat first [apply list_elem_of_here | apply list_elem_of_further].
Qed.

Lemma approved_by_asking_preamble w ver errs :
  Forall is_tag_error errs ->
  approved_by_asking w (Printed (MsgVersion ver) :: LoadToggleSettings :: errs)
    (log_to (count_load w) (Printed (MsgVersion ver) :: LoadToggleSettings :: errs)).
Proof. intros _ c Hc. by left. Qed.

(** The events of the driver are those of its loop over the views, between
    [Start] and the closing call, if any. *)
Lemma driver_shape h selected_views selected_elements w :
  let run := tag_elements_in_selected_views h selected_views selected_elements in
  let views := for_each_view h selected_views selected_elements in
  exists ending,
    events_of run w
    = TransactionStart :: events_of views (world_after t_Start w) ++ ending /\
    (ending = [TransactionCommit] \/ ending = [TransactionRollBack] \/ ending = []) /\
    ignored_tag_types (world_after run w)
    = ignored_tag_types (world_after views (world_after t_Start w)) /\
    next_Id (world_after run w) = next_Id (world_after views (world_after t_Start w)).
Proof.
  intros run views. subst run views.
  pose proof (driver_unfold h selected_views selected_elements w) as Hrun.
  set (w0 := world_after t_Start w) in *.
  assert (chronicle w0 = chronicle w ++ [TransactionStart]) as Hc0 by done.
  destruct (for_each_view h selected_views selected_elements w0) as [r w1] eqn:Hviews.
  destruct (for_each_view_step _ _ _ _ _ _ Hviews) as (new & Hc & _).
  rewrite (events_of_spec _ _ _ _ _ Hviews Hc), (world_after_eq _ _ _ _ Hviews).
  unfold t_Commit, t_RollBack, world_after in Hrun.
  destruct r as [[]|[msg|]]; simpl in Hrun; rewrite (world_after_eq _ _ _ _ Hrun).
  - exists [TransactionCommit]. split; [|by auto].
    apply (events_of_spec _ _ _ _ _ Hrun). simpl. by rewrite Hc, Hc0, <- !app_assoc.
  - exists [TransactionRollBack]. split; [|by auto].
    apply (events_of_spec _ _ _ _ _ Hrun). simpl. by rewrite Hc, Hc0, <- !app_assoc.
  - exists []. split; [|by auto].
    apply (events_of_spec _ _ _ _ _ Hrun). simpl.
    by rewrite Hc, Hc0, <- !app_assoc, app_nil_r.
Qed.

(** Property X4.  A category gets into the approved set during a run only
    through a prompt about this category that was answered, and answered
    with something other than 'No'. *)
Theorem approval_needs_an_answer h selected_views selected_elements w c :
  let run := tag_elements_in_selected_views h selected_views selected_elements in
  c ∈ ignored_tag_types (world_after run w) ->
  c ∉ ignored_tag_types w ->
  exists a, AlertShown c (Ok a) ∈ events_of run w /\ answer_is a "No" = false.
Proof.
  intros run Hc Hnot. subst run.
  destruct (driver_shape h selected_views selected_elements w)
    as (ending & Hev & _ & Hign & _).
  rewrite Hign in Hc. rewrite Hev.
  pose proof (run_eq (for_each_view h selected_views selected_elements)
                     (world_after t_Start w)) as Hviews.
  destruct (for_each_view_rel approved_by_asking approved_by_asking_refl
              approved_by_asking_trans approved_by_asking_pass
              approved_by_asking_preamble _ _ _ _ _ _ Hviews) as (new & Hch & Happ).
  rewrite (events_of_spec _ _ _ _ _ Hviews Hch).
  destruct (Happ c Hc) as [?|(a & Ha & Hno)]; [done|].
  exists a. split; [|done].
  apply elem_of_cons. right. apply elem_of_app. by left.
Qed.

Lemma approval_needs_an_answer_witness :
  exists a,
    AlertShown 20 (Ok a)
      ∈ events_of (tag_elements_in_selected_views ex_decline_host
                     [ex_level1; ex_level2] ex_elements) ex_world /\
    answer_is a "No" = false.
Proof.
  apply (approval_needs_an_answer ex_decline_host [ex_level1; ex_level2]
           ex_elements ex_world 20).
  - match goal with |- ?P => apply (proj1 (bool_decide_eq_true P)) end.
    vm_compute. reflexivity.
  - apply not_elem_of_empty.
Defined.

(** ** What the tagger deletes *)

Lemma deletes_its_own_refl w : deletes_its_own w [] w.
Proof.
  split; [lia|]. split; [done|]. intros id H. by apply elem_of_nil in H.
Qed.

Lemma deletes_its_own_trans w1 n1 w2 n2 w3 :
  deletes_its_own w1 n1 w2 -> deletes_its_own w2 n2 w3 ->
  deletes_its_own w1 (n1 ++ n2) w3.
Proof.
  intros (A1 & A2 & A3) (B1 & B2 & B3). split; [lia|]. split.
  - intros tag Ht Hlt. apply B2; [by apply A2 | lia].
  - intros id Hd. apply elem_of_app in Hd as [Hd|Hd].
    + destruct (A3 id Hd) as (v & el & l & m & o & p & Hf).
      exists v, el, l, m, o, p. by apply follows_directly_app_l.
    + destruct (B3 id Hd) as (v & el & l & m & o & p & Hf).
      exists v, el, l, m, o, p. by apply follows_directly_app_r.
Qed.

Lemma deletes_its_own_pass h view ts covered total idx el w r w1 :
  guarded_element h view ts covered total idx el w = (r, w1) ->
  exists new, chronicle w1 = chronicle w ++ new /\ deletes_its_own w new w1.
Proof.
  intros H. unfold deletes_its_own. exec; chron.
  all: (split; [lia|]); split.
  all: try (intros tag Ht Hlt; try (apply list_elem_of_filter; split; [lia|]);
            first [ exact Ht | apply elem_of_app; by left ]).
  all: intros id Hd; split_elem Hd.
  all: do 6 eexists; find_adjacent.
Qed.

Lemma deletes_its_own_preamble w ver errs :
  Forall is_tag_error errs ->
  deletes_its_own w (Printed (MsgVersion ver) :: LoadToggleSettings :: errs)
    (log_to (count_load w) (Printed (MsgVersion ver) :: LoadToggleSettings :: errs)).
Proof.
  intros Hf. split; [simpl; lia|]. split; [done|]. intros id Hd.
  apply elem_of_cons in Hd as [?|Hd]; [done|].
  apply elem_of_cons in Hd as [?|Hd]; [done|].
  rewrite Forall_forall in Hf. by destruct (Hf _ Hd) as [msg ?].
Qed.

(** Property X5.  The run deletes only tags it has made itself: every
    deletion directly follows the creation of the tag deleted, and every
    tag the document held before the run is still there after it. *)
Theorem only_fresh_tags_are_deleted h selected_views selected_elements w :
  let run := tag_elements_in_selected_views h selected_views selected_elements in
  (forall id,
     TagDeleted id ∈ events_of run w ->
     exists v el leader mode orientation point,
       follows_directly (TagCreated id v el leader mode orientation point)
                        (TagDeleted id) (events_of run w)) /\
  (forall tag,
     tag ∈ doc_tags w -> tag_Id tag < next_Id w ->
     tag ∈ doc_tags (world_after run w)).
Proof.
  intros run. subst run.
  pose proof (driver_unfold h selected_views selected_elements w) as Hrun.
  destruct (driver_shape h selected_views selected_elements w)
    as (ending & Hev & Hend & _).
  set (w0 := world_after t_Start w) in *.
  destruct (for_each_view h selected_views selected_elements w0) as [r w1] eqn:Hviews.
  destruct (for_each_view_rel deletes_its_own deletes_its_own_refl
              deletes_its_own_trans deletes_its_own_pass
              deletes_its_own_preamble _ _ _ _ _ _ Hviews)
    as (new & Hch & _ & Hkeep & Hdel).
  destruct (for_each_view_step _ _ _ _ _ _ Hviews) as (new' & Hch' & _ & _ & Hsnap & _).
  rewrite (events_of_spec _ _ _ _ _ Hviews Hch) in Hev. rewrite Hev.
  split.
  - intros id Hd. apply elem_of_cons in Hd as [?|Hd]; [done|].
    apply elem_of_app in Hd as [Hd|Hd].
    + destruct (Hdel id Hd) as (v & el & l & m & o & p & Hf).
      exists v, el, l, m, o, p.
      apply (follows_directly_app_r _ _ [TransactionStart]).
      by apply follows_directly_app_l.
    + destruct Hend as [->|[->| ->]]; split_elem Hd.
  - intros tag Ht Hlt.
    unfold t_Commit, t_RollBack, world_after in Hrun.
    destruct r as [[]|[msg|]]; simpl in Hrun;
      rewrite (world_after_eq _ _ _ _ Hrun); simpl.
    + by apply Hkeep.
    + by rewrite Hsnap.
    + by apply Hkeep.
Qed.

Lemma only_fresh_tags_are_deleted_witness :
  tag_made 900 1 ex_door1 "D1"
    ∈ doc_tags (world_after (tag_elements_in_selected_views ex_blank_host
                               [ex_level1; ex_level2] ex_elements)
                            ex_tagged_world).
Proof.
  apply (proj2 (only_fresh_tags_are_deleted ex_blank_host [ex_level1; ex_level2]
                  ex_elements ex_tagged_world)).
  - in_list.
  - reflexivity.
Defined.

(** ** When the prompt is shown *)

Lemma is_tag_type_loaded_false h c :
  is_tag_type_loaded h c = false <-> c ∉ element_types h.
Proof.
  unfold is_tag_type_loaded. rewrite <- not_true_iff_false, existsb_exists.
  split.
  - intros Hno Hin. apply Hno. exists c. split; [by apply list_elem_of_In|].
    apply Z.eqb_refl.
  - intros Hno (x & Hin & Hx). apply Z.eqb_eq in Hx. subst x.
    apply Hno. by apply list_elem_of_In.
Qed.

(** What holds of every event of every call of the tagger holds of every
    event of the loop over the views. *)
Lemma for_each_view_events h selected_elements (P : event -> Prop) :
  (forall view w e,
     e ∈ events_of (tag_elements_in_view h view selected_elements) w -> P e) ->
  forall selected_views w e,
    e ∈ events_of (for_each_view h selected_views selected_elements) w -> P e.
Proof.
  intros HP selected_views.
  induction selected_views as [|view rest IH]; intros w e He.
  - unfold events_of in He. simpl in He. rewrite drop_all in He.
    by apply elem_of_nil in He.
  - destruct (tag_elements_in_view h view selected_elements w) as [r1 w1] eqn:Hview.
    destruct (tag_elements_in_view_rel tagger_step tagger_step_refl
                tagger_step_trans tagger_step_pass tagger_step_preamble
                _ _ _ _ _ _ Hview) as (n1 & Hc1 & _).
    assert (forall x, x ∈ n1 -> P x) as H1.
    { intros x Hx. apply (HP view w).
      by rewrite (events_of_spec _ _ _ _ _ Hview Hc1). }
    destruct r1 as [[]|err].
    + destruct (for_each_view h rest selected_elements w1) as [r2 w2] eqn:Hrest.
      destruct (for_each_view_step _ _ _ _ _ _ Hrest) as (n2 & Hc2 & _).
      assert (for_each_view h (view :: rest) selected_elements w = (r2, w2)) as Hrun.
      { simpl. unfold bind at 1. by rewrite Hview. }
      rewrite (events_of_spec _ _ _ _ (n1 ++ n2) Hrun) in He;
        [|by rewrite Hc2, Hc1, app_assoc].
      apply elem_of_app in He as [He|He]; [by apply H1|].
      apply (IH w1). by rewrite (events_of_spec _ _ _ _ _ Hrest Hc2).
    + assert (for_each_view h (view :: rest) selected_elements w = (Raise err, w1))
        as Hrun.
      { simpl. unfold bind at 1. by rewrite Hview. }
      rewrite (events_of_spec _ _ _ _ _ Hrun Hc1) in He. by apply H1.
Qed.

Lemma alert_of_view h selected_elements view w e :
  e ∈ events_of (tag_elements_in_view h view selected_elements) w ->
  alert_is_due h selected_elements e.
Proof.
  intros He. destruct e; try done. simpl.
  apply view_event_of in He as [[m ?]|[?|He]]; [done|done|].
  destruct He as (ver & ts & _ & _ & idx & el & Hin & Hp).
  destruct Hp as (category & Hc & -> & Hl & _).
  split; [done|]. by exists el, category.
Qed.

(** Property X6.  A prompt is shown only for a category that has no
    element type in the document, that was not approved when the run began,
    and that is the category of one of the selected elements. *)
Theorem prompt_only_for_unloaded_categories h selected_views selected_elements w c ans :
  AlertShown c ans
    ∈ events_of (tag_elements_in_selected_views h selected_views selected_elements) w ->
  (c ∉ element_types h) /\ (c ∉ ignored_tag_types w) /\
  exists el category,
    el ∈ selected_elements /\ Category_ el = Some category /\ cat_Id category = c.
Proof.
  intros He.
  destruct (driver_shape h selected_views selected_elements w)
    as (ending & Hev & Hend & _).
  rewrite Hev in He. clear Hev.
  apply elem_of_cons in He as [?|He]; [done|].
  apply elem_of_app in He as [He|He].
  2:{ destruct Hend as [->|[->| ->]]; split_elem He. }
  pose proof (for_each_view_events h selected_elements
                (alert_is_due h selected_elements)
                (alert_of_view h selected_elements) _ _ _ He) as [Hl Hel].
  split; [by apply is_tag_type_loaded_false|]. split; [|done].
  pose proof (run_eq (for_each_view h selected_views selected_elements)
                     (world_after t_Start w)) as Hviews.
  destruct (for_each_view_approved _ _ _ _ _ _ Hviews) as (new & Hch & _ & Hq).
  rewrite (events_of_spec _ _ _ _ _ Hviews Hch) in He.
  intros Hin. by apply (Hq c ans Hin).
Qed.

Lemma prompt_only_for_unloaded_categories_witness :
  (20 ∉ element_types ex_decline_host) /\ (20 ∉ ignored_tag_types ex_world) /\
  exists el category,
    el ∈ ex_elements /\ Category_ el = Some category /\ cat_Id category = 20.
Proof.
  apply (prompt_only_for_unloaded_categories ex_decline_host [ex_level1; ex_level2]
           ex_elements ex_world 20 (Ok (AnsStr "No"))).
  in_list.
Defined.

(** ** [sorted] *)

Lemma insert_sorted_perm s l : insert_sorted s l ≡ₚ s :: l.
Proof.
  induction l as [|x l IH]; simpl; [done|].
  destruct (String.leb s x); [done|].
  rewrite IH. apply Permutation_swap.
Qed.

Lemma insert_sorted_HdRel a s l :
  string_le a s -> HdRel string_le a l -> HdRel string_le a (insert_sorted s l).
Proof.
  intros Has Hal. destruct l as [|x l]; simpl; [by constructor|].
  destruct (String.leb s x); constructor; [done|].
  by inversion Hal.
Qed.

Lemma insert_sorted_Sorted s l :
  Sorted string_le l -> Sorted string_le (insert_sorted s l).
Proof.
  induction 1 as [|x l Hl IH Hx]; simpl; [by repeat constructor|].
  destruct (String.leb s x) eqn:Hsx.
  - constructor; [by constructor|]. by constructor.
  - constructor; [done|]. apply insert_sorted_HdRel; [|done].
    destruct (String.leb_total s x) as [H|H]; [congruence|done].
Qed.

Lemma sorted_Sorted l : Sorted string_le (sorted l).
Proof.
  induction l as [|s l IH]; simpl; [constructor|]. by apply insert_sorted_Sorted.
Qed.

Lemma sorted_perm l : sorted l ≡ₚ l.
Proof.
  induction l as [|s l IH]; simpl; [done|]. by rewrite insert_sorted_perm, IH.
Qed.

(** ** [select_views] *)

Lemma select_views_inv h w vs w' :
  select_views h w = (Ok vs, w') ->
  exists views names,
    all_views h = Ok views /\
    SelectFromList_show h "Select Views"
      (sorted (map view_Name (available_views views))) = Ok (Some names) /\
    vs = List.filter (fun v => existsb (String.eqb (view_Name v)) names)
                     (available_views views) /\
    w' = log_to w [ListShown "Select Views"
                             (sorted (map view_Name (available_views views)))
                             (Ok (Some names));
                   Printed (MsgSelectedViews names)].
Proof.
  unfold select_views, SelectFromList, available_views. intros H.
  exec. eexists _, _. split; [done|]. split; [eassumption|]. split; [done|].
  unfold log_to. simpl. by rewrite <- app_assoc.
Qed.

Lemma filter_sublist {A} (p : A -> bool) (l : list A) : List.filter p l `sublist_of` l.
Proof.
  induction l as [|x l IH]; simpl; [constructor|].
  destruct (p x); by constructor.
Qed.

Lemma elem_of_available_views v views :
  v ∈ available_views views <->
  v ∈ views /\ view_ViewType v <> OtherView /\ IsTemplate v = false.
Proof.
  unfold available_views. rewrite list_elem_of_In, filter_In, <- list_elem_of_In.
  rewrite andb_true_iff, negb_true_iff. simpl.
  destruct (view_ViewType v); simpl; intuition congruence.
Qed.

Lemma existsb_eqb_elem_of (s : string) (names : list string) :
  existsb (String.eqb s) names = true <-> s ∈ names.
Proof.
  rewrite existsb_exists. split.
  - intros (x & Hin & Hx). apply String.eqb_eq in Hx. subst x.
    by apply list_elem_of_In.
  - intros Hin. exists s. split; [by apply list_elem_of_In | apply String.eqb_refl].
Qed.

(** Property X9.  When [select_views] returns, the views returned are
    exactly the views of the document that are a plan, an elevation or a
    section, are no template, and bear one of the names picked (so views
    that share a picked name come together); they come in the order of the
    document. *)
Theorem selected_views_are_the_named_ones h w vs :
  result_of (select_views h) w = Ok vs ->
  exists views offered names,
    all_views h = Ok views /\
    events_of (select_views h) w
    = [ListShown "Select Views" offered (Ok (Some names));
       Printed (MsgSelectedViews names)] /\
    (forall v,
       v ∈ vs <->
       v ∈ views /\ view_ViewType v <> OtherView /\ IsTemplate v = false /\
       view_Name v ∈ names) /\
    vs `sublist_of` views.
Proof.
  intros Hr.
  pose proof (run_eq (select_views h) w) as Hrun. rewrite Hr in Hrun.
  destruct (select_views_inv _ _ _ _ Hrun) as (views & names & Hv & _ & Hvs & Hw).
  exists views, (sorted (map view_Name (available_views views))), names.
  split; [done|]. split; [|split].
  - apply (events_of_spec _ _ _ _ _ Hrun). by rewrite Hw.
  - intros v. rewrite Hvs, list_elem_of_In, filter_In, <- list_elem_of_In.
    rewrite elem_of_available_views, existsb_eqb_elem_of. tauto.
  - rewrite Hvs. etrans; [apply filter_sublist|]. apply filter_sublist.
Qed.

Lemma selected_views_are_the_named_ones_witness :
  exists views offered names,
    all_views ex_picky_host = Ok views /\
    events_of (select_views ex_picky_host) ex_world
    = [ListShown "Select Views" offered (Ok (Some names));
       Printed (MsgSelectedViews names)] /\
    (forall v,
       v ∈ [ex_level1; mkView 8 "Level 1" Elevation false []] <->
       v ∈ views /\ view_ViewType v <> OtherView /\ IsTemplate v = false /\
       view_Name v ∈ names) /\
    [ex_level1; mkView 8 "Level 1" Elevation false []] `sublist_of` views.
Proof.
  apply (selected_views_are_the_named_ones ex_picky_host ex_world
           [ex_level1; mkView 8 "Level 1" Elevation false []]).
  vm_compute. reflexivity.
Defined.

(** Property X10.  Whatever the view dialog is shown lists the names of
    the available views in ascending order, each as often as there are
    available views of that name. *)
Theorem view_names_are_offered_in_order h w offered r :
  ListShown "Select Views" offered r ∈ events_of (select_views h) w ->
  exists views,
    all_views h = Ok views /\
    Sorted string_le offered /\
    offered ≡ₚ map view_Name (available_views views).
Proof.
  intros He.
  pose proof (run_eq (select_views h) w) as Hrun.
  assert (exists new, chronicle (world_after (select_views h) w) = chronicle w ++ new /\
            Forall (fun e => forall offered r,
                      e = ListShown "Select Views" offered r ->
                      exists views,
                        all_views h = Ok views /\
                        offered = sorted (map view_Name (available_views views))) new)
    as (new & Hc & Hf).
  { revert Hrun. generalize (world_after (select_views h) w) (result_of (select_views h) w).
    intros w' r' H. unfold select_views, SelectFromList in H. exec; chron.
    all: repeat first [apply List.Forall_nil | apply List.Forall_cons].
    all: intros o r0 Heq; try discriminate.
    all: injection Heq as <- <-; eexists; split; [first [eassumption | reflexivity] | reflexivity]. }
  rewrite (events_of_spec _ _ _ _ _ Hrun Hc) in He.
  rewrite Forall_forall in Hf.
  destruct (Hf _ He offered r eq_refl) as (views & Hv & ->).
  exists views. split; [done|]. split; [apply sorted_Sorted | apply sorted_perm].
Qed.

Lemma view_names_are_offered_in_order_witness :
  exists views,
    all_views ex_picky_host = Ok views /\
    Sorted string_le ["Level 1"; "Level 1"; "Level 2"; "Section A"] /\
    ["Level 1"; "Level 1"; "Level 2"; "Section A"]
      ≡ₚ map view_Name (available_views views).
Proof.
  apply (view_names_are_offered_in_order ex_picky_host ex_world
           ["Level 1"; "Level 1"; "Level 2"; "Section A"] (Ok (Some ["Level 1"]))).
  vm_compute. apply list_elem_of_here.
Defined.

(** ** [select_categories] *)

Lemma get_Item_Ok categories name c :
  get_Item categories name = Ok c -> c ∈ categories /\ cat_Name c = name.
Proof.
  unfold get_Item. destruct (find _ _) as [c'|] eqn:Hf; [|done].
  intros [= ->]. apply find_some in Hf as [Hin Hn].
  split; [by apply list_elem_of_In | by apply String.eqb_eq].
Qed.

Lemma map_outcome_Ok {A B} (f : A -> outcome B) xs :
  forall ys, map_outcome f xs = Ok ys -> Forall2 (fun x y => f x = Ok y) xs ys.
Proof.
  induction xs as [|x xs IH]; simpl; intros ys H.
  - injection H as <-. constructor.
  - destruct (f x) as [y|] eqn:Hx; [|done].
    destruct (map_outcome f xs) as [ys'|]; [|done].
    injection H as <-. constructor; [done | by apply IH].
Qed.

Lemma select_categories_inv h w cats w' :
  select_categories h w = (Ok cats, w') ->
  exists configured names,
    load_configs h = Ok configured /\
    map_outcome (get_Item (Categories h)) names = Ok cats /\
    w' = log_to w
           [ListShown "Select Categories to Tag"
              (map cat_Name
                 (List.filter
                    (fun cat => existsb (String.eqb (cat_Name cat)) configured
                                && AllowsBoundParameters cat)
                    (Categories h)))
              (Ok (Some names));
            Printed (MsgSelectedCategories names)].
Proof.
  unfold select_categories, SelectFromList, log_to. intros H. exec.
  eexists _, _. split; [reflexivity|]. split; [eassumption|].
  rewrite <- app_assoc. reflexivity.
Qed.

Lemma elem_of_offered_categories configured categories n :
  n ∈ map cat_Name
        (List.filter
           (fun cat => existsb (String.eqb (cat_Name cat)) configured
                       && AllowsBoundParameters cat)
           categories) <->
  exists c, c ∈ categories /\ cat_Name c = n /\ n ∈ configured /\
            AllowsBoundParameters c = true.
Proof.
  rewrite list_elem_of_In, in_map_iff. split.
  - intros (c & <- & Hin). apply filter_In in Hin as [Hin Hp].
    apply andb_true_iff in Hp as [Hn Ha]. exists c.
    split; [by apply list_elem_of_In|]. split; [done|]. split; [|done].
    apply existsb_exists in Hn as (x & Hx & Heq). apply String.eqb_eq in Heq.
    rewrite Heq. by apply list_elem_of_In.
  - intros (c & Hin & <- & Hn & Ha). exists c. split; [done|].
    apply filter_In. split; [by apply list_elem_of_In|].
    apply andb_true_iff. split; [|done]. apply existsb_exists.
    exists (cat_Name c). split; [by apply list_elem_of_In | apply String.eqb_refl].
Qed.

(** Property X7.  When [select_categories] returns, it has shown one
    dialog and printed the names picked in it; the names offered are those
    of the document's categories that are in the configured list and allow
    bound parameters; the categories returned are categories of the
    document and carry, one by one and in order, the names picked. *)
Theorem selected_categories_carry_the_names h w cats :
  result_of (select_categories h) w = Ok cats ->
  exists configured offered names,
    load_configs h = Ok configured /\
    events_of (select_categories h) w
    = [ListShown "Select Categories to Tag" offered (Ok (Some names));
       Printed (MsgSelectedCategories names)] /\
    (forall n, n ∈ offered <->
               exists c, c ∈ Categories h /\ cat_Name c = n /\ n ∈ configured /\
                         AllowsBoundParameters c = true) /\
    map cat_Name cats = names /\
    (forall c, c ∈ cats -> c ∈ Categories h).
Proof.
  intros Hr.
  pose proof (run_eq (select_categories h) w) as Hrun. rewrite Hr in Hrun.
  destruct (select_categories_inv _ _ _ _ Hrun) as (configured & names & Hl & Hm & Hw).
  apply map_outcome_Ok in Hm.
  eexists configured, _, names. split; [done|]. split; [|split; [|split]].
  - apply (events_of_spec _ _ _ _ _ Hrun). rewrite Hw. reflexivity.
  - apply elem_of_offered_categories.
  - clear -Hm. induction Hm as [|n c ns cs Hn _ IH]; simpl; [done|].
    apply get_Item_Ok in Hn as [_ ->]. by rewrite IH.
  - intros c Hc. clear -Hm Hc.
    induction Hm as [|n c' ns cs Hn _ IH]; [by apply elem_of_nil in Hc|].
    apply elem_of_cons in Hc as [->|Hc]; [by apply get_Item_Ok in Hn as [? _] | by apply IH].
Qed.

Lemma selected_categories_carry_the_names_witness :
  exists configured offered names,
    load_configs ex_picky_host = Ok configured /\
    events_of (select_categories ex_picky_host) ex_world
    = [ListShown "Select Categories to Tag" offered (Ok (Some names));
       Printed (MsgSelectedCategories names)] /\
    (forall n, n ∈ offered <->
               exists c, c ∈ Categories ex_picky_host /\ cat_Name c = n /\
                         n ∈ configured /\ AllowsBoundParameters c = true) /\
    map cat_Name [ex_windows; ex_doors] = names /\
    (forall c, c ∈ [ex_windows; ex_doors] -> c ∈ Categories ex_picky_host).
Proof.
  apply (selected_categories_carry_the_names ex_picky_host ex_world
           [ex_windows; ex_doors]).
  vm_compute. reflexivity.
Defined.

(** ** [select_elements] *)

Lemma collect_elements_inv h cats :
  forall acc w els w',
    collect_elements h cats acc w = (Ok els, w') ->
    exists lists,
      Forall2 (fun c l => elements_of_category h (cat_Id c) = Ok l) cats lists /\
      els = acc ++ concat lists /\
      chronicle w' = chronicle w ++ collected_lines cats lists /\
      element_cache w'
      = foldl (fun m cl => <[cat_Id cl.1 := cl.2]> m) (element_cache w) (zip cats lists) /\
      document_untouched w w'.
Proof.
  induction cats as [|category rest IH]; intros acc w els w' H; simpl in H.
  - unfold ret in H. simplify_eq. exists []. split; [constructor|].
    by rewrite !app_nil_r.
  - unfold bind at 1 in H. unfold lift in H.
    destruct (elements_of_category h (cat_Id category)) as [l|e] eqn:Hl; simpl in H;
      [|done].
    unfold bind at 1 in H. unfold cache_elements in H. simpl in H.
    unfold bind at 1 in H. unfold print, emit in H. simpl in H.
    apply IH in H as (lists & Hf & -> & Hc & Hm & Hd). simpl in *.
    exists (l :: lists). split; [by constructor|]. split; [by rewrite <- app_assoc|].
    split; [by rewrite Hc, <- app_assoc|]. done.
Qed.

Lemma cache_after_lookup h (cats : list Category) lists :
  Forall2 (fun c l => elements_of_category h (cat_Id c) = Ok l) cats lists ->
  forall (m : gmap Z (list Element)) k,
    foldl (fun m cl => <[cat_Id cl.1 := cl.2]> m) m (zip cats lists) !! k
    = match elements_of_category h k with
      | Ok l => if bool_decide (k ∈ map cat_Id cats) then Some l else m !! k
      | Raise _ => m !! k
      end.
Proof.
  induction 1 as [|c l cats lists Hc Hf IH]; intros m k.
  - destruct (elements_of_category h k); [|done].
    rewrite bool_decide_eq_false_2; [done | apply not_elem_of_nil].
  - cbn [zip_with foldl fst snd List.map]. rewrite IH. destruct (decide (k = cat_Id c)) as [->|Hne].
    + rewrite Hc, lookup_insert_eq.
      rewrite (bool_decide_eq_true_2 (cat_Id c ∈ cat_Id c :: _)) by apply list_elem_of_here.
      by case_bool_decide.
    + rewrite lookup_insert_ne by done.
      destruct (elements_of_category h k); [|done].
      apply (f_equal (fun b : bool => if b then Some a else m !! k)).
      apply bool_decide_ext. rewrite elem_of_cons. naive_solver.
Qed.

(** Property X8.  When [select_elements] returns, its result is the
    concatenation, in the order of the categories, of the elements the
    document holds for each; it has printed one line per category, the
    cache holds for each of these categories its elements, and the entries
    of the cache under other keys are as before. *)
Theorem selected_elements_are_the_categories_elements h cats w els :
  let run := select_elements h cats in
  result_of run w = Ok els ->
  exists lists,
    Forall2 (fun c l => elements_of_category h (cat_Id c) = Ok l) cats lists /\
    els = concat lists /\
    events_of run w = collected_lines cats lists /\
    (forall c l, c ∈ cats -> elements_of_category h (cat_Id c) = Ok l ->
                 element_cache (world_after run w) !! cat_Id c = Some l) /\
    (forall k, k ∉ map cat_Id cats ->
               element_cache (world_after run w) !! k = element_cache w !! k).
Proof.
  intros run Hr.
  pose proof (run_eq run w) as Hrun. rewrite Hr in Hrun.
  assert (collect_elements h cats [] w = (Ok els, world_after run w)) as Hcol.
  { revert Hrun. unfold run, select_elements, try_except.
    destruct (collect_elements h cats [] w) as [[r|[msg|]] w1] eqn:Hc; simpl.
    - congruence.
    - unfold bind, print, emit, raise. simpl. congruence.
    - congruence. }
  apply collect_elements_inv in Hcol as (lists & Hf & -> & Hc & Hm & _).
  exists lists. split; [done|]. split; [done|]. split; [|split].
  - by apply (events_of_spec _ _ _ _ _ Hrun).
  - intros c l Hin Hl. rewrite Hm, (cache_after_lookup _ _ _ Hf), Hl.
    rewrite bool_decide_eq_true_2; [done|].
    apply list_elem_of_In, in_map, list_elem_of_In, Hin.
  - intros k Hk. rewrite Hm, (cache_after_lookup _ _ _ Hf).
    rewrite bool_decide_eq_false_2 by done. by destruct (elements_of_category h k).
Qed.

Lemma selected_elements_are_the_categories_elements_witness :
  let run := select_elements ex_picky_host [ex_windows; ex_doors] in
  exists lists,
    Forall2 (fun c l => elements_of_category ex_picky_host (cat_Id c) = Ok l)
            [ex_windows; ex_doors] lists /\
    [ex_window; ex_door1; ex_door2] = concat lists /\
    events_of run ex_world = collected_lines [ex_windows; ex_doors] lists /\
    (forall c l, c ∈ [ex_windows; ex_doors] ->
                 elements_of_category ex_picky_host (cat_Id c) = Ok l ->
                 element_cache (world_after run ex_world) !! cat_Id c = Some l) /\
    (forall k, k ∉ map cat_Id [ex_windows; ex_doors] ->
               element_cache (world_after run ex_world) !! k
               = element_cache ex_world !! k).
Proof.
  apply (selected_elements_are_the_categories_elements ex_picky_host
           [ex_windows; ex_doors] ex_world [ex_window; ex_door1; ex_door2]).
  vm_compute. reflexivity.
Defined.

(** ** What fails a view *)

(** Property X14.  A failure before the element loop is not isolated: when
    for the first view the host's version cannot be read, or the settings
    cannot be loaded, the [Exception] leaves the tagger and the loop over
    the views, the driver rolls the transaction back and passes the
    [Exception] on, and the document's tags are those from before. *)
Theorem preamble_failure_undoes_the_run h view more_views selected_elements w msg :
  let run := tag_elements_in_selected_views h (view :: more_views) selected_elements in
  (get_revit_version h = Raise (Exception msg) ->
   result_of run w = Raise (Exception msg) /\
   events_of run w = [TransactionStart; TransactionRollBack] /\
   doc_tags (world_after run w) = doc_tags w) /\
  (forall ver,
     get_revit_version h = Ok ver ->
     load_toggle_settings h (loads w) = Raise (Exception msg) ->
     result_of run w = Raise (Exception msg) /\
     events_of run w
     = [TransactionStart; Printed (MsgVersion ver); LoadToggleSettings;
        TransactionRollBack] /\
     doc_tags (world_after run w) = doc_tags w).
Proof.
  intros run. subst run.
  pose proof (driver_unfold h (view :: more_views) selected_elements w) as Hrun.
  split.
  - intros Hv.
    assert (for_each_view h (view :: more_views) selected_elements (world_after t_Start w)
            = (Raise (Exception msg), world_after t_Start w)) as Hviews.
    { simpl. unfold bind at 1, tag_elements_in_view, bind at 1, lift. by rewrite Hv. }
    rewrite Hviews in Hrun.
    rewrite (result_of_eq _ _ _ _ Hrun), (world_after_eq _ _ _ _ Hrun).
    split; [done|]. split; [|done].
    apply (events_of_spec _ _ _ _ _ Hrun). simpl. by rewrite <- !app_assoc.
  - intros ver Hv Hl.
    assert (for_each_view h (view :: more_views) selected_elements (world_after t_Start w)
            = (Raise (Exception msg),
               log_to (count_load (world_after t_Start w))
                      [Printed (MsgVersion ver); LoadToggleSettings])) as Hviews.
    { simpl. unfold bind at 1.
      destruct (tag_elements_in_view h view selected_elements (world_after t_Start w))
        as [r w1] eqn:Hview.
      apply tag_elements_in_view_inv in Hview.
      destruct Hview as [e He | ver' e Hver Hl' | ver' ts errs Hver Hl' Hf
                        | ver' ts errs r w' Hver Hl' Hf Hloop];
        change (loads (world_after t_Start w)) with (loads w) in *; congruence. }
    rewrite Hviews in Hrun.
    rewrite (result_of_eq _ _ _ _ Hrun), (world_after_eq _ _ _ _ Hrun).
    split; [done|]. split; [|done].
    apply (events_of_spec _ _ _ _ _ Hrun). simpl. by rewrite <- !app_assoc.
Qed.

Lemma preamble_failure_undoes_the_run_witness :
  let run := tag_elements_in_selected_views ex_unreadable_host [ex_level2; ex_level1]
               ex_elements in
  result_of run (count_load ex_tagged_world) = Raise (Exception "settings unreadable") /\
  events_of run (count_load ex_tagged_world)
  = [TransactionStart; Printed (MsgVersion 2023); LoadToggleSettings;
     TransactionRollBack] /\
  doc_tags (world_after run (count_load ex_tagged_world))
  = doc_tags (count_load ex_tagged_world).
Proof.
  apply (proj2 (preamble_failure_undoes_the_run ex_unreadable_host ex_level2 [ex_level1]
                  ex_elements (count_load ex_tagged_world) "settings unreadable") 2023);
    reflexivity.
Defined.


(** ** The top level *)

Lemma no_report_refl w : no_report w [] w.
Proof. constructor. Qed.

Lemma no_report_trans w1 n1 w2 n2 w3 :
  no_report w1 n1 w2 -> no_report w2 n2 w3 -> no_report w1 (n1 ++ n2) w3.
Proof. intros H1 H2. by apply Forall_app. Qed.

Lemma no_report_pass h view ts covered total idx el w r w1 :
  guarded_element h view ts covered total idx el w = (r, w1) ->
  exists new, chronicle w1 = chronicle w ++ new /\ no_report w new w1.
Proof.
  intros H. apply guarded_element_events in H as (new & Hc & Hf).
  exists new. split; [done|]. eapply Forall_impl; [exact Hf|].
  intros [m| | | | | | | | |]; simpl; try done. by intros (msg & ->).
Qed.

Lemma no_report_preamble w ver errs :
  Forall is_tag_error errs ->
  no_report w (Printed (MsgVersion ver) :: LoadToggleSettings :: errs)
    (log_to (count_load w) (Printed (MsgVersion ver) :: LoadToggleSettings :: errs)).
Proof.
  intros Hf. repeat (constructor; [done|]).
  eapply Forall_impl; [exact Hf|]. by intros e [msg ->].
Qed.

(** What the driver adds to the chronicle and leaves of the document when
    an error escapes it. *)
Lemma driver_trace h selected_views selected_elements w r w' :
  tag_elements_in_selected_views h selected_views selected_elements w = (r, w') ->
  exists new,
    chronicle w' = chronicle w ++ TransactionStart :: new /\
    Forall (fun e => is_report e = false) new /\
    (forall msg, r = Raise (Exception msg) ->
                 doc_tags w' = doc_tags w /\ transaction w' = RolledBack /\
                 Forall (fun e => e <> TransactionCommit) new).
Proof.
  rewrite driver_unfold.
  destruct (for_each_view h selected_views selected_elements (world_after t_Start w))
    as [r1 w1] eqn:Hviews.
  pose proof (for_each_view_step _ _ _ _ _ _ Hviews) as (new & Hc & Ht & _ & Hs & _).
  assert (Forall (fun e => e <> TransactionCommit) new) as Hnc.
  { eapply Forall_impl; [exact Ht|]. by intros e He ->. }
  destruct (for_each_view_rel no_report no_report_refl no_report_trans no_report_pass
              no_report_preamble _ _ _ _ _ _ Hviews) as (new' & Hc' & Hn).
  assert (new' = new) as -> by (rewrite Hc in Hc'; by apply app_inv_head in Hc').
  simpl in Hc, Hs.
  intros H. unfold t_Commit, t_RollBack, world_after in H.
  destruct r1 as [[]|[msg|]]; simplify_eq; simpl.
  - exists (new ++ [TransactionCommit]).
    split; [by rewrite Hc, <- !app_assoc|]. split; [|done].
    apply Forall_app. split; [done | by repeat constructor].
  - exists (new ++ [TransactionRollBack]).
    split; [by rewrite Hc, <- !app_assoc|].
    split; [apply Forall_app; split; [done | by repeat constructor]|].
    intros ? _. split; [done|]. split; [done|].
    apply Forall_app. split; [done | by repeat constructor].
  - exists new. split; [by rewrite Hc, <- !app_assoc|]. done.
Qed.

Lemma select_categories_trace h w r w' :
  select_categories h w = (r, w') ->
  exists new, chronicle w' = chronicle w ++ new /\
              stage_trace r new /\ document_untouched w w'.
Proof.
  unfold select_categories, SelectFromList, stage_trace, document_untouched.
  intros H. exec; chron.
  all: (split; [|done]).
  all: first [ left; by repeat constructor
             | right; eexists _, _, [_]; split; [reflexivity|]; by repeat constructor ].
Qed.

Lemma select_views_trace h w r w' :
  select_views h w = (r, w') ->
  exists new, chronicle w' = chronicle w ++ new /\
              stage_trace r new /\ document_untouched w w'.
Proof.
  unfold select_views, SelectFromList, stage_trace, document_untouched.
  intros H. exec; chron.
  all: (split; [|done]).
  all: first [ left; by repeat constructor
             | right; eexists _, _, [_]; split; [reflexivity|]; by repeat constructor ].
Qed.

Lemma collect_elements_lines h selected_categories :
  forall acc w r w',
    collect_elements h selected_categories acc w = (r, w') ->
    exists new, chronicle w' = chronicle w ++ new /\
                Forall (fun e => is_stage_line e = true) new.
Proof.
  induction selected_categories as [|category rest IH]; intros acc w r w' H; simpl in H.
  - unfold ret in H. simplify_eq. exists []. rewrite app_nil_r. by split.
  - unfold bind at 1 in H. unfold lift in H.
    destruct (elements_of_category h (cat_Id category)) as [els|e]; simpl in H.
    2:{ simplify_eq. exists []. rewrite app_nil_r. by split. }
    unfold bind at 1 in H. unfold cache_elements in H. simpl in H.
    unfold bind at 1 in H. unfold print, emit in H. simpl in H.
    apply IH in H as (new & Hc & Hf). simpl in Hc.
    exists (Printed (MsgCollected (cat_Name category) (map Id els)) :: new).
    split; [by rewrite Hc, <- app_assoc|]. by constructor.
Qed.

Lemma select_elements_trace h selected_categories w r w' :
  select_elements h selected_categories w = (r, w') ->
  exists new, chronicle w' = chronicle w ++ new /\
              stage_trace r new /\ document_untouched w w'.
Proof.
  unfold select_elements, try_except. intros H.
  destruct (collect_elements h selected_categories [] w) as [r1 w1] eqn:Hc.
  pose proof (collect_elements_stage _ _ _ _ _ _ Hc) as (new' & Hc' & _ & Hd).
  apply collect_elements_lines in Hc as (new & Hc & Hq).
  assert (new' = new) as -> by (rewrite Hc in Hc'; by apply app_inv_head in Hc').
  destruct r1 as [els|[msg|]]; simplify_eq.
  - exists new. split; [done|]. split; [by left|done].
  - unfold bind, print, emit, raise in H. simpl in H. simplify_eq. simpl.
    exists (new ++ [Printed (MsgStageError "select_elements" msg)]).
    split; [by rewrite Hc, app_assoc|]. split; [|done].
    right. by eexists _, _, new.
  - exists new. split; [done|]. split; [by left|done].
Qed.

Lemma stage_trace_raise {A B} e new :
  @stage_trace A (Raise e) new -> @stage_trace B (Raise e) new.
Proof.
  intros [?|(stage & msg & before & ? & ? & ?)]; [by left|].
  right. exists stage, msg, before. by simplify_eq.
Qed.

Lemma stage_trace_app {A} (r : outcome A) n1 n2 :
  Forall (fun e => is_stage_line e = true) n1 ->
  stage_trace r n2 -> stage_trace r (n1 ++ n2).
Proof.
  intros H1 [H2|(stage & msg & before & -> & H2 & ->)].
  - left. by apply Forall_app.
  - right. exists stage, msg, (n1 ++ before).
    split; [by rewrite app_assoc|]. split; [by apply Forall_app | done].
Qed.

Lemma stage_trace_Ok {A} (a : A) new :
  stage_trace (Ok a) new -> Forall (fun e => is_stage_line e = true) new.
Proof. by intros [?|(? & ? & ? & _ & _ & ?)]. Qed.

(** The ways the three stages and the driver can follow each other. *)
Lemma run_stages_inv h w r w' :
  run_stages h w = (r, w') ->
  (exists new, chronicle w' = chronicle w ++ new /\
               stage_trace r new /\ document_untouched w w') \/
  (exists cats els views w1 w2 w3,
     select_categories h w = (Ok cats, w1) /\
     select_elements h cats w1 = (Ok els, w2) /\
     select_views h w2 = (Ok views, w3) /\
     els <> [] /\ views <> [] /\
     tag_elements_in_selected_views h views els w3 = (r, w')).
Proof.
  unfold run_stages. intros H.
  unfold bind at 1 in H.
  destruct (select_categories h w) as [[cats|e1] w1] eqn:H1.
  2:{ left. simplify_eq.
      apply select_categories_trace in H1 as (n1 & Hc1 & Ht1 & Hd1).
      exists n1. split; [done|]. split; [by apply (stage_trace_raise (B:=unit)) in Ht1 | done]. }
  unfold bind at 1 in H.
  destruct (select_elements h cats w1) as [[els|e2] w2] eqn:H2.
  2:{ left. simplify_eq.
      apply select_categories_trace in H1 as (n1 & Hc1 & Ht1 & Hd1).
      apply stage_trace_Ok in Ht1.
      apply select_elements_trace in H2 as (n2 & Hc2 & Ht2 & Hd2).
      exists (n1 ++ n2). split; [by rewrite Hc2, Hc1, app_assoc|].
      split; [|destruct Hd1, Hd2; split; congruence].
      apply stage_trace_app; [done | by apply (stage_trace_raise (B:=unit)) in Ht2]. }
  unfold bind at 1 in H.
  destruct (select_views h w2) as [[views|e3] w3] eqn:H3.
  2:{ left. simplify_eq.
      apply select_categories_trace in H1 as (n1 & Hc1 & Ht1 & Hd1).
      apply stage_trace_Ok in Ht1.
      apply select_elements_trace in H2 as (n2 & Hc2 & Ht2 & Hd2).
      apply stage_trace_Ok in Ht2.
      apply select_views_trace in H3 as (n3 & Hc3 & Ht3 & Hd3).
      exists ((n1 ++ n2) ++ n3).
      split; [by rewrite Hc3, Hc2, Hc1, <- !app_assoc|].
      split; [|destruct Hd1, Hd2, Hd3; split; congruence].
      apply stage_trace_app; [by apply Forall_app | by apply (stage_trace_raise (B:=unit)) in Ht3]. }
  destruct els as [|el els]; [|destruct views as [|view views]]; simpl in H.
  3:{ right. by eexists _, _, _, _, _, _. }
  all: left; unfold ret in H; simplify_eq.
  all: apply select_categories_trace in H1 as (n1 & Hc1 & Ht1 & Hd1).
  all: apply stage_trace_Ok in Ht1.
  all: apply select_elements_trace in H2 as (n2 & Hc2 & Ht2 & Hd2).
  all: apply stage_trace_Ok in Ht2.
  all: apply select_views_trace in H3 as (n3 & Hc3 & Ht3 & Hd3).
  all: apply stage_trace_Ok in Ht3.
  all: exists (n1 ++ n2 ++ n3).
  all: (split; [by rewrite Hc3, Hc2, Hc1, <- !app_assoc|]).
  all: (split; [|destruct Hd1, Hd2, Hd3; split; congruence]).
  all: left; by repeat (apply Forall_app; split).
Qed.

(** What the top-level handlers add to a run of the stages. *)
Lemma main_inv h w r w1 new :
  run_stages h w = (r, w1) ->
  chronicle w1 = chronicle w ++ new ->
  result_of (main h) w = Ok tt /\
  doc_tags (world_after (main h) w) = doc_tags w1 /\
  transaction (world_after (main h) w) = transaction w1 /\
  events_of (main h) w
  = new ++ match r with
           | Raise (Exception msg) => [Printed (MsgGeneralError msg)]
           | _ => []
           end.
Proof.
  intros Hrun Hc.
  assert (exists w2, main h w = (Ok tt, w2) /\ doc_tags w2 = doc_tags w1 /\
                     transaction w2 = transaction w1 /\
                     chronicle w2
                     = chronicle w ++ new ++ match r with
                                             | Raise (Exception msg) =>
                                                 [Printed (MsgGeneralError msg)]
                                             | _ => []
                                             end) as (w2 & Hm & Hd & Ht & Hc2).
  { unfold main. rewrite Hrun. destruct r as [[]|[msg|]].
    - exists w1. by rewrite app_nil_r.
    - eexists. split; [reflexivity|]. simpl. by rewrite Hc, <- app_assoc.
    - exists w1. by rewrite app_nil_r. }
  rewrite (result_of_eq _ _ _ _ Hm), (world_after_eq _ _ _ _ Hm).
  split; [done|]. split; [done|]. split; [done|].
  by apply (events_of_spec _ _ _ _ _ Hm).
Qed.

Lemma stage_line_quiet e : is_stage_line e = true -> is_quiet e = true.
Proof. by destruct e as [[]| | | | | | | | |]. Qed.

Lemma stage_lines_quiet new :
  Forall (fun e => is_stage_line e = true) new ->
  Forall (fun e => is_quiet e = true) new.
Proof. intros H. eapply Forall_impl; [exact H|]. apply stage_line_quiet. Qed.

Lemma stage_line_is_no_report e : is_stage_line e = true -> is_report e = false.
Proof. by destruct e as [[]| | | | | | | | |]. Qed.

(** Property X12.  An error line of a selection stage is directly followed
    by the line of the top level with the same message, and the two end the
    script: everything before them is quiet, and neither the document's
    tags nor the state of the transaction have changed. *)
Theorem stage_error_is_reported_again h w stage msg :
  Printed (MsgStageError stage msg) ∈ events_of (main h) w ->
  exists before,
    events_of (main h) w
    = before ++ [Printed (MsgStageError stage msg); Printed (MsgGeneralError msg)] /\
    Forall (fun e => is_quiet e = true) before /\
    document_untouched w (world_after (main h) w).
Proof.
  intros He.
  destruct (run_stages h w) as [r w1] eqn:Hrun.
  destruct (run_stages_inv _ _ _ _ Hrun)
    as [(new & Hc & Ht & Hd1 & Hd2)
       |(cats & els & views & w1' & w2 & w3 & H1 & H2 & H3 & _ & _ & Hd)].
  - destruct (main_inv _ _ _ _ _ Hrun Hc) as (_ & Hdoc & Htr & Hev).
    rewrite Hev in He |- *.
    destruct Ht as [Hq|(stage' & msg' & before & -> & Hq & ->)].
    + exfalso. apply elem_of_app in He as [He|He].
      * rewrite Forall_forall in Hq. by apply Hq in He.
      * destruct r as [[]|[m|]]; [by apply elem_of_nil in He| |by apply elem_of_nil in He].
        by apply list_elem_of_singleton in He.
    + exists before.
      assert (stage' = stage /\ msg' = msg) as [-> ->].
      { apply elem_of_app in He as [He|He]; [|by apply list_elem_of_singleton in He].
        apply elem_of_app in He as [He|He].
        - rewrite Forall_forall in Hq. by apply Hq in He.
        - apply list_elem_of_singleton in He. by simplify_eq. }
      split; [by rewrite <- app_assoc|]. split; [by apply stage_lines_quiet|].
      split; congruence.
  - exfalso.
    apply select_categories_trace in H1 as (n1 & Hc1 & Ht1 & _).
    apply stage_trace_Ok in Ht1.
    apply select_elements_trace in H2 as (n2 & Hc2 & Ht2 & _).
    apply stage_trace_Ok in Ht2.
    apply select_views_trace in H3 as (n3 & Hc3 & Ht3 & _).
    apply stage_trace_Ok in Ht3.
    apply driver_trace in Hd as (n4 & Hc4 & Hn4 & _).
    assert (chronicle w1 = chronicle w ++ (n1 ++ n2 ++ n3 ++ TransactionStart :: n4)) as Hc.
    { by rewrite Hc4, Hc3, Hc2, Hc1, <- !app_assoc. }
    destruct (main_inv _ _ _ _ _ Hrun Hc) as (_ & _ & _ & Hev).
    rewrite Hev in He.
    assert (Forall (fun e => is_report e = false)
                   (n1 ++ n2 ++ n3 ++ TransactionStart :: n4)) as Hf.
    { repeat (apply Forall_app; split);
        try (eapply Forall_impl; [eassumption|]; apply stage_line_is_no_report).
      by constructor. }
    apply elem_of_app in He as [He|He].
    + rewrite Forall_forall in Hf. by apply Hf in He.
    + destruct r as [[]|[m|]]; [by apply elem_of_nil in He| |by apply elem_of_nil in He].
      by apply list_elem_of_singleton in He.
Qed.

Lemma stage_error_is_reported_again_witness :
  exists before,
    events_of (main ex_broken_collector_host) ex_world
    = before ++ [Printed (MsgStageError "select_elements" "collector failed");
                 Printed (MsgGeneralError "collector failed")] /\
    Forall (fun e => is_quiet e = true) before /\
    document_untouched ex_world (world_after (main ex_broken_collector_host) ex_world).
Proof.
  apply (stage_error_is_reported_again ex_broken_collector_host ex_world
           "select_elements" "collector failed").
  vm_compute. repeat first [apply list_elem_of_here | apply list_elem_of_further].
Defined.

Lemma quiet_not_closing e : is_stage_line e = true -> not_closing e.
Proof. intros H. split; [by intros ->|]. by intros m ->. Qed.

Lemma stage_trace_not_closing {A} (r : outcome A) new :
  stage_trace r new -> Forall not_closing new.
Proof.
  intros [Hq|(stage & msg & before & -> & Hq & _)].
  - eapply Forall_impl; [exact Hq|]. apply quiet_not_closing.
  - apply Forall_app. split.
    + eapply Forall_impl; [exact Hq|]. apply quiet_not_closing.
    + by repeat constructor.
Qed.

Lemma general_error_at_the_end (new : list event) (r : outcome unit) msg :
  Forall (fun e => forall m, e <> Printed (MsgGeneralError m)) new ->
  Printed (MsgGeneralError msg)
    ∈ new ++ match r with
             | Raise (Exception m) => [Printed (MsgGeneralError m)]
             | _ => []
             end ->
  r = Raise (Exception msg).
Proof.
  intros Hf He. apply elem_of_app in He as [He|He].
  - rewrite Forall_forall in Hf. by destruct (Hf _ He msg).
  - destruct r as [[]|[m|]]; [by apply elem_of_nil in He| |by apply elem_of_nil in He].
    apply list_elem_of_singleton in He. by simplify_eq.
Qed.

(** Property X13.  When the top level prints its error line, the stages
    have raised this very [Exception], the line is the last event, nothing
    was committed, and the document's tags are those it had when the script
    began; the transaction is as it was or rolled back. *)
Theorem general_error_leaves_the_document h w msg :
  Printed (MsgGeneralError msg) ∈ events_of (main h) w ->
  result_of (run_stages h) w = Raise (Exception msg) /\
  (exists before,
     events_of (main h) w = before ++ [Printed (MsgGeneralError msg)] /\
     Forall (fun e => e <> TransactionCommit) before) /\
  doc_tags (world_after (main h) w) = doc_tags w /\
  (transaction (world_after (main h) w) = transaction w \/
   transaction (world_after (main h) w) = RolledBack).
Proof.
  intros He.
  destruct (run_stages h w) as [r w1] eqn:Hrun.
  rewrite (result_of_eq _ _ _ _ Hrun).
  destruct (run_stages_inv _ _ _ _ Hrun)
    as [(new & Hc & Ht & Hd1 & Hd2)
       |(cats & els & views & w1' & w2 & w3 & H1 & H2 & H3 & _ & _ & Hd)].
  - destruct (main_inv _ _ _ _ _ Hrun Hc) as (_ & Hdoc & Htr & Hev).
    rewrite Hev in He |- *. apply stage_trace_not_closing in Ht.
    apply general_error_at_the_end in He as ->.
    2:{ eapply Forall_impl; [exact Ht|]. by intros e [_ ?]. }
    split; [done|]. split; [|split; [congruence | left; congruence]].
    exists new. split; [done|]. eapply Forall_impl; [exact Ht|]. by intros e [? _].
  - apply select_categories_trace in H1 as (n1 & Hc1 & Ht1 & Hd1 & _).
    apply stage_trace_not_closing in Ht1.
    apply select_elements_trace in H2 as (n2 & Hc2 & Ht2 & Hd2 & _).
    apply stage_trace_not_closing in Ht2.
    apply select_views_trace in H3 as (n3 & Hc3 & Ht3 & Hd3 & _).
    apply stage_trace_not_closing in Ht3.
    apply driver_trace in Hd as (n4 & Hc4 & Hn4 & Hroll).
    assert (chronicle w1 = chronicle w ++ (n1 ++ n2 ++ n3 ++ TransactionStart :: n4)) as Hc.
    { by rewrite Hc4, Hc3, Hc2, Hc1, <- !app_assoc. }
    destruct (main_inv _ _ _ _ _ Hrun Hc) as (_ & Hdoc & Htr & Hev).
    rewrite Hev in He |- *.
    apply general_error_at_the_end in He as ->.
    2:{ repeat (apply Forall_app; split);
          try (eapply Forall_impl; [eassumption|]; by intros e [_ ?]).
        constructor; [done|]. eapply Forall_impl; [exact Hn4|]. by intros e Hr m ->. }
    destruct (Hroll msg eq_refl) as (Hdoc4 & Htr4 & Hnc4).
    split; [done|]. split; [|split; [congruence | right; congruence]].
    eexists. split; [reflexivity|].
    repeat (apply Forall_app; split);
      try (eapply Forall_impl; [eassumption|]; by intros e [? _]).
    by constructor.
Qed.

Lemma general_error_leaves_the_document_witness :
  result_of (run_stages ex_unreadable_host) ex_world
  = Raise (Exception "settings unreadable") /\
  (exists before,
     events_of (main ex_unreadable_host) ex_world
     = before ++ [Printed (MsgGeneralError "settings unreadable")] /\
     Forall (fun e => e <> TransactionCommit) before) /\
  doc_tags (world_after (main ex_unreadable_host) ex_world) = doc_tags ex_world /\
  (transaction (world_after (main ex_unreadable_host) ex_world) = transaction ex_world \/
   transaction (world_after (main ex_unreadable_host) ex_world) = RolledBack).
Proof.
  apply (general_error_leaves_the_document ex_unreadable_host ex_world
           "settings unreadable").
  vm_compute. repeat first [apply list_elem_of_here | apply list_elem_of_further].
Defined.

Lemma select_elements_Ok h cats w els w' :
  select_elements h cats w = (Ok els, w') ->
  collect_elements h cats [] w = (Ok els, w').
Proof.
  unfold select_elements, try_except.
  destruct (collect_elements h cats [] w) as [[r|[msg|]] w1]; simpl.
  - congruence.
  - unfold bind, print, emit, raise. simpl. congruence.
  - congruence.
Qed.

Lemma Forall2_elem_of_r {A B} (P : A -> B -> Prop) xs ys y :
  Forall2 P xs ys -> y ∈ ys -> exists x, x ∈ xs /\ P x y.
Proof.
  induction 1 as [|x y' xs ys HP _ IH]; intros Hy; [by apply elem_of_nil in Hy|].
  apply elem_of_cons in Hy as [->|Hy].
  - exists x. split; [apply list_elem_of_here | done].
  - destruct (IH Hy) as (x' & Hx & HP'). exists x'.
    split; [by apply list_elem_of_further | done].
Qed.

(** Property X11.  The script opens a transaction only after both dialogs
    were confirmed, the events before it being quiet, and only when some
    picked category of the document has an element and some view of the
    document that is no template and of a tagged type bears a picked name. *)
Theorem transaction_needs_elements_and_views h w :
  TransactionStart ∈ events_of (main h) w ->
  exists offered1 names1 offered2 names2 before after,
    events_of (main h) w = before ++ TransactionStart :: after /\
    Forall (fun e => is_quiet e = true) before /\
    ListShown "Select Categories to Tag" offered1 (Ok (Some names1)) ∈ before /\
    ListShown "Select Views" offered2 (Ok (Some names2)) ∈ before /\
    (exists c l el,
       c ∈ Categories h /\ cat_Name c ∈ names1 /\
       elements_of_category h (cat_Id c) = Ok l /\ el ∈ l) /\
    (exists views v,
       all_views h = Ok views /\ v ∈ views /\ view_ViewType v <> OtherView /\
       IsTemplate v = false /\ view_Name v ∈ names2).
Proof.
  intros He.
  destruct (run_stages h w) as [r w'] eqn:Hrun.
  destruct (run_stages_inv _ _ _ _ Hrun)
    as [(new & Hc & Ht & _)
       |(cats & els & views & w1 & w2 & w3 & H1 & H2 & H3 & Hels & Hviews & Hd)].
  - exfalso.
    destruct (main_inv _ _ _ _ _ Hrun Hc) as (_ & _ & _ & Hev).
    rewrite Hev in He. apply elem_of_app in He as [He|He].
    + destruct Ht as [Hq|(stage & msg & before & -> & Hq & _)].
      * rewrite Forall_forall in Hq. by apply Hq in He.
      * apply elem_of_app in He as [He|He].
        -- rewrite Forall_forall in Hq. by apply Hq in He.
        -- by apply list_elem_of_singleton in He.
    + destruct r as [[]|[m|]]; [by apply elem_of_nil in He| |by apply elem_of_nil in He].
      by apply list_elem_of_singleton in He.
  - pose proof (select_categories_trace _ _ _ _ H1) as (n1 & Hc1 & Ht1 & _).
    apply stage_trace_Ok in Ht1.
    pose proof (select_elements_trace _ _ _ _ _ H2) as (n2 & Hc2 & Ht2 & _).
    apply stage_trace_Ok in Ht2.
    pose proof (select_views_trace _ _ _ _ H3) as (n3 & Hc3 & Ht3 & _).
    apply stage_trace_Ok in Ht3.
    apply driver_trace in Hd as (n4 & Hc4 & _).
    assert (chronicle w' = chronicle w ++ ((n1 ++ n2 ++ n3) ++ TransactionStart :: n4))
      as Hc.
    { by rewrite Hc4, Hc3, Hc2, Hc1, <- !app_assoc. }
    destruct (main_inv _ _ _ _ _ Hrun Hc) as (_ & _ & _ & Hev).
    apply select_categories_inv in H1 as (configured & names1 & Hl & Hm & Hw1).
    apply map_outcome_Ok in Hm.
    apply select_elements_Ok, collect_elements_inv in H2
      as (lists & Hf & Hconcat & _).
    apply select_views_inv in H3 as (all & names2 & Hall & _ & Hvs & Hw3).
    assert (n1 = [ListShown "Select Categories to Tag"
                    (map cat_Name
                       (List.filter
                          (fun cat => existsb (String.eqb (cat_Name cat)) configured
                                      && AllowsBoundParameters cat)
                          (Categories h)))
                    (Ok (Some names1));
                  Printed (MsgSelectedCategories names1)]) as Hn1.
    { rewrite Hw1 in Hc1. simpl in Hc1. by apply app_inv_head in Hc1. }
    assert (n3 = [ListShown "Select Views"
                    (sorted (map view_Name (available_views all)))
                    (Ok (Some names2));
                  Printed (MsgSelectedViews names2)]) as Hn3.
    { rewrite Hw3 in Hc3. simpl in Hc3. by apply app_inv_head in Hc3. }
    eexists _, names1, _, names2, (n1 ++ n2 ++ n3), _.
    split; [rewrite Hev, <- app_assoc; reflexivity|].
    split; [apply stage_lines_quiet; by repeat (apply Forall_app; split)|].
    split; [rewrite Hn1; apply elem_of_app; left; apply list_elem_of_here|].
    split; [rewrite Hn3; do 2 (apply elem_of_app; right); apply list_elem_of_here|].
    split.
    + destruct els as [|el els]; [done|].
      assert (el ∈ concat lists) as Hel by (simpl in Hconcat; rewrite <- Hconcat; apply list_elem_of_here).
      apply list_elem_of_In, in_concat in Hel as (l & Hl' & Hel).
      apply list_elem_of_In in Hl'. apply list_elem_of_In in Hel.
      destruct (Forall2_elem_of_r _ _ _ _ Hf Hl') as (c & Hc' & Hcl).
      destruct (Forall2_elem_of_r _ _ _ _ Hm Hc') as (n & Hn & Hg).
      apply get_Item_Ok in Hg as [Hcat <-].
      by exists c, l, el.
    + destruct views as [|v views]; [done|].
      assert (v ∈ List.filter (fun v => existsb (String.eqb (view_Name v)) names2)
                              (available_views all)) as Hv
        by (rewrite <- Hvs; apply list_elem_of_here).
      apply list_elem_of_In, filter_In in Hv as [Hv Hn].
      apply list_elem_of_In, elem_of_available_views in Hv as (Hv & Hty & Htm).
      apply existsb_eqb_elem_of in Hn.
      by exists all, v.
Qed.

Lemma transaction_needs_elements_and_views_witness :
  exists offered1 names1 offered2 names2 before after,
    events_of (main ex_plain_host) ex_world = before ++ TransactionStart :: after /\
    Forall (fun e => is_quiet e = true) before /\
    ListShown "Select Categories to Tag" offered1 (Ok (Some names1)) ∈ before /\
    ListShown "Select Views" offered2 (Ok (Some names2)) ∈ before /\
    (exists c l el,
       c ∈ Categories ex_plain_host /\ cat_Name c ∈ names1 /\
       elements_of_category ex_plain_host (cat_Id c) = Ok l /\ el ∈ l) /\
    (exists views v,
       all_views ex_plain_host = Ok views /\ v ∈ views /\ view_ViewType v <> OtherView /\
       IsTemplate v = false /\ view_Name v ∈ names2).
Proof.
  apply (transaction_needs_elements_and_views ex_plain_host ex_world).
  vm_compute. repeat first [apply list_elem_of_here | apply list_elem_of_further].
Defined.

(** ** The exit signal of the prompt *)

Lemma exit_last_Ok {A} (a : A) new :
  exit_last (Ok a) new -> Forall (fun e => is_exit_alert e = false) new.
Proof. by intros [?|[? _]]. Qed.

Lemma exit_last_Exception {A} msg new :
  @exit_last A (Raise (Exception msg)) new ->
  Forall (fun e => is_exit_alert e = false) new.
Proof. by intros [?|[? _]]. Qed.

Lemma exit_last_raise {A B} e new :
  @exit_last A (Raise e) new -> @exit_last B (Raise e) new.
Proof.
  intros [?|(? & before & e' & ? & ? & ?)]; [by left|].
  right. split; [by simplify_eq|]. by exists before, e'.
Qed.

Lemma exit_last_app {A} (r : outcome A) n1 n2 :
  Forall (fun e => is_exit_alert e = false) n1 ->
  exit_last r n2 -> exit_last r (n1 ++ n2).
Proof.
  intros H1 [H2|(-> & before & e & -> & He & H2)].
  - left. by apply Forall_app.
  - right. split; [done|]. exists (n1 ++ before), e.
    split; [by rewrite app_assoc|]. split; [done | by apply Forall_app].
Qed.

Lemma guarded_element_exit h view ts covered total idx el w r w1 :
  guarded_element h view ts covered total idx el w = (r, w1) ->
  exists new, chronicle w1 = chronicle w ++ new /\ exit_last r new.
Proof.
  intros H. unfold exit_last. exec; chron.
  all: first [ left; by repeat constructor
             | right; split; [done|]; eexists [_], _; split; [reflexivity|];
               by repeat constructor ].
Qed.

Lemma element_loop_exit h view ts covered total elements :
  forall idx w r w',
    element_loop h view ts covered total idx elements w = (r, w') ->
    exists new, chronicle w' = chronicle w ++ new /\ exit_last r new.
Proof.
  induction elements as [|el rest IH]; intros idx w r w' H; simpl in H.
  - unfold ret in H. simplify_eq. exists []. rewrite app_nil_r.
    split; [done|]. left. constructor.
  - unfold bind in H.
    destruct (guarded_element h view ts covered total idx el w) as [[f|e] w1] eqn:Hg;
      apply guarded_element_exit in Hg as (n1 & Hc1 & He1).
    + apply exit_last_Ok in He1. destruct f.
      * apply IH in H as (n2 & Hc2 & He2). exists (n1 ++ n2).
        split; [by rewrite Hc2, Hc1, app_assoc|]. by apply exit_last_app.
      * unfold ret in H. simplify_eq. exists n1. split; [done | by left].
    + simplify_eq. exists n1. split; [done|]. by apply (exit_last_raise (B:=unit)) in He1.
Qed.

Lemma tag_error_is_no_exit errs :
  Forall is_tag_error errs -> Forall (fun e => is_exit_alert e = false) errs.
Proof. intros H. eapply Forall_impl; [exact H|]. by intros e [msg ->]. Qed.

Lemma tag_elements_in_view_exit h view elements w r w' :
  tag_elements_in_view h view elements w = (r, w') ->
  exists new, chronicle w' = chronicle w ++ new /\ exit_last r new.
Proof.
  intros H. apply tag_elements_in_view_inv in H.
  destruct H as [e He | ver e Hver Hl | ver ts errs Hver Hl Hf
                | ver ts errs r w' Hver Hl Hf Hloop].
  - exists []. rewrite app_nil_r. split; [done|]. left. constructor.
  - eexists. split; [reflexivity|]. left. by repeat constructor.
  - eexists. split; [reflexivity|]. left.
    repeat (constructor; [done|]). by apply tag_error_is_no_exit.
  - apply element_loop_exit in Hloop as (new & Hc & He). simpl in Hc.
    exists ((Printed (MsgVersion ver) :: LoadToggleSettings :: errs) ++ new).
    split; [by rewrite Hc, <- app_assoc|].
    apply exit_last_app; [|done].
    repeat (constructor; [done|]). by apply tag_error_is_no_exit.
Qed.

Lemma for_each_view_exit h selected_views selected_elements :
  forall w r w',
    for_each_view h selected_views selected_elements w = (r, w') ->
    exists new, chronicle w' = chronicle w ++ new /\ exit_last r new.
Proof.
  induction selected_views as [|view rest IH]; intros w r w' H; simpl in H.
  - unfold ret in H. simplify_eq. exists []. rewrite app_nil_r.
    split; [done|]. left. constructor.
  - unfold bind in H.
    destruct (tag_elements_in_view h view selected_elements w) as [[[]|e] w1] eqn:Hv;
      apply tag_elements_in_view_exit in Hv as (n1 & Hc1 & He1).
    + apply exit_last_Ok in He1.
      apply IH in H as (n2 & Hc2 & He2). exists (n1 ++ n2).
      split; [by rewrite Hc2, Hc1, app_assoc|]. by apply exit_last_app.
    + simplify_eq. by exists n1.
Qed.

(** The driver under the exit signal: neither commit nor rollback. *)
Lemma driver_exit h selected_views selected_elements w r w' :
  tag_elements_in_selected_views h selected_views selected_elements w = (r, w') ->
  exists new,
    chronicle w' = chronicle w ++ TransactionStart :: new /\
    exit_last r new /\
    (r = Raise SystemExit ->
     transaction w' = Started /\
     Forall (fun e => is_transaction_event e = false) new).
Proof.
  rewrite driver_unfold.
  destruct (for_each_view h selected_views selected_elements (world_after t_Start w))
    as [r1 w1] eqn:Hviews.
  pose proof (for_each_view_step _ _ _ _ _ _ Hviews) as (new & Hc & Ht & Htr & _).
  apply for_each_view_exit in Hviews as (new' & Hc' & He).
  assert (new' = new) as -> by (rewrite Hc in Hc'; by apply app_inv_head in Hc').
  simpl in Hc, Htr.
  intros H. unfold t_Commit, t_RollBack, world_after in H.
  destruct r1 as [[]|[msg|]]; simplify_eq; simpl.
  - exists (new ++ [TransactionCommit]).
    split; [by rewrite Hc, <- !app_assoc|]. split; [|done].
    left. apply exit_last_Ok in He. apply Forall_app. split; [done | by repeat constructor].
  - exists (new ++ [TransactionRollBack]).
    split; [by rewrite Hc, <- !app_assoc|]. split; [|done].
    left. apply exit_last_Exception in He.
    apply Forall_app. split; [done | by repeat constructor].
  - exists new. split; [by rewrite Hc, <- !app_assoc|]. split; [done|].
    intros _. split; [done|].
    eapply Forall_impl; [exact Ht|]. by intros [].
Qed.

Lemma stage_line_is_no_exit e : is_stage_line e = true -> is_exit_alert e = false.
Proof. by destruct e. Qed.

Lemma stage_trace_no_exit {A} (r : outcome A) new :
  stage_trace r new -> Forall (fun e => is_exit_alert e = false) new.
Proof.
  intros [Hq|(stage & msg & before & -> & Hq & _)].
  - eapply Forall_impl; [exact Hq|]. apply stage_line_is_no_exit.
  - apply Forall_app. split; [|by repeat constructor].
    eapply Forall_impl; [exact Hq|]. apply stage_line_is_no_exit.
Qed.

(** Property X15.  When the prompt ends the script instead of returning,
    its event is the last of the script: the exit signal passes the guard of
    the pass and the guard of the driver, so that the transaction opened
    before is neither committed nor rolled back, and the top level swallows
    the signal and ends normally without a line. *)
Theorem exit_signal_ends_the_script h w c :
  AlertShown c (Raise SystemExit) ∈ events_of (main h) w ->
  result_of (run_stages h) w = Raise SystemExit /\
  result_of (main h) w = Ok tt /\
  transaction (world_after (main h) w) = Started /\
  exists before,
    events_of (main h) w
    = before ++ [AlertShown c (Raise SystemExit)] /\
    TransactionStart ∈ before /\
    Forall (fun e => e <> TransactionCommit /\ e <> TransactionRollBack) before.
Proof.
  intros He.
  destruct (run_stages h w) as [r w'] eqn:Hrun.
  rewrite (result_of_eq _ _ _ _ Hrun).
  destruct (run_stages_inv _ _ _ _ Hrun)
    as [(new & Hc & Ht & _)
       |(cats & els & views & w1 & w2 & w3 & H1 & H2 & H3 & _ & _ & Hd)].
  - exfalso.
    destruct (main_inv _ _ _ _ _ Hrun Hc) as (_ & _ & _ & Hev).
    rewrite Hev in He. apply stage_trace_no_exit in Ht.
    apply elem_of_app in He as [He|He].
    + rewrite Forall_forall in Ht. by apply Ht in He.
    + destruct r as [[]|[m|]]; [by apply elem_of_nil in He| |by apply elem_of_nil in He].
      by apply list_elem_of_singleton in He.
  - apply select_categories_trace in H1 as (n1 & Hc1 & Ht1 & _).
    apply stage_trace_Ok in Ht1.
    apply select_elements_trace in H2 as (n2 & Hc2 & Ht2 & _).
    apply stage_trace_Ok in Ht2.
    apply select_views_trace in H3 as (n3 & Hc3 & Ht3 & _).
    apply stage_trace_Ok in Ht3.
    apply driver_exit in Hd as (n4 & Hc4 & He4 & Hopen).
    assert (Forall (fun e => is_stage_line e = true) (n1 ++ n2 ++ n3)) as Hs
      by (by repeat (apply Forall_app; split)).
    assert (chronicle w' = chronicle w ++ ((n1 ++ n2 ++ n3) ++ TransactionStart :: n4))
      as Hc.
    { by rewrite Hc4, Hc3, Hc2, Hc1, <- !app_assoc. }
    destruct (main_inv _ _ _ _ _ Hrun Hc) as (Hres & _ & Htr & Hev).
    rewrite Hev in He |- *.
    assert (r = Raise SystemExit /\
            exists before, n4 = before ++ [AlertShown c (Raise SystemExit)])
      as (-> & before & ->).
    { destruct He4 as [Hno|(-> & before & e & -> & Hex & Hno)].
      - exfalso. apply elem_of_app in He as [He|He].
        + apply elem_of_app in He as [He|He].
          * rewrite Forall_forall in Hs. by apply Hs in He.
          * apply elem_of_cons in He as [He|He]; [done|].
            rewrite Forall_forall in Hno. by apply Hno in He.
        + destruct r as [[]|[m|]]; [by apply elem_of_nil in He| |by apply elem_of_nil in He].
          by apply list_elem_of_singleton in He.
      - split; [done|]. exists before. f_equal. f_equal.
        rewrite app_nil_r in He.
        apply elem_of_app in He as [He|He].
        + rewrite Forall_forall in Hs. by apply Hs in He.
        + apply elem_of_cons in He as [He|He]; [done|].
          apply elem_of_app in He as [He|He].
          * rewrite Forall_forall in Hno. by apply Hno in He.
          * by apply list_elem_of_singleton in He. }
    destruct (Hopen eq_refl) as (Hst & Hnt).
    split; [done|]. split; [done|]. split; [congruence|].
    exists ((n1 ++ n2 ++ n3) ++ TransactionStart :: before).
    split; [by rewrite app_nil_r, <- !app_assoc|].
    split; [apply elem_of_app; right; apply list_elem_of_here|].
    apply Forall_app. split.
    + eapply Forall_impl; [exact Hs|]. intros e Hl. split; by intros ->.
    + constructor; [done|]. apply Forall_app in Hnt as [Hnt _].
      eapply Forall_impl; [exact Hnt|]. intros e Hl. split; by intros ->.
Qed.

Lemma exit_signal_ends_the_script_witness :
  result_of (run_stages ex_exit_host) ex_world = Raise SystemExit /\
  result_of (main ex_exit_host) ex_world = Ok tt /\
  transaction (world_after (main ex_exit_host) ex_world) = Started /\
  exists before,
    events_of (main ex_exit_host) ex_world
    = before ++ [AlertShown 20 (Raise SystemExit)] /\
    TransactionStart ∈ before /\
    Forall (fun e => e <> TransactionCommit /\ e <> TransactionRollBack) before.
Proof.
  apply (exit_signal_ends_the_script ex_exit_host ex_world 20).
  vm_compute. repeat first [apply list_elem_of_here | apply list_elem_of_further].
Defined.

(** ** The transaction, and the prompt declined *)



(** Claim C2.  An element that reaches the prompt (category without loaded
    type and not yet approved) causes an alert.  When the user declines,
    the dialog ends the script: the exit signal leaves the element loop at
    once, the category not approved, and in the run as a whole the declined
    prompt is the last event, so that no further element is processed in
    this view or in any remaining one, and nothing is committed.  When the
    user approves, the category is approved, and an approved category is
    never asked about again, neither in the rest of the view nor in the
    remaining views. *)
Theorem prompt_for_unloaded_category :
  (forall h view ts covered total idx el w category,
     reaches_prompt h view ts covered el category w ->
     exists more,
       events_of (guarded_element h view ts covered total idx el) w
       = UpdateProgress idx total
           :: AlertShown (cat_Id category) (forms_alert h (alerts w) category) :: more) /\
  (forall h view ts covered total idx el rest w category,
     reaches_prompt h view ts covered el category w ->
     user_declines (forms_alert h (alerts w) category) ->
     let loop := element_loop h view ts covered total idx (el :: rest) in
     result_of loop w = Raise SystemExit /\
     events_of loop w
     = [UpdateProgress idx total; AlertShown (cat_Id category) (Raise SystemExit)] /\
     ignored_tag_types (world_after loop w) = ignored_tag_types w) /\
  (forall h selected_views selected_elements w c,
     let run := tag_elements_in_selected_views h selected_views selected_elements in
     AlertShown c (Raise SystemExit) ∈ events_of run w ->
     result_of run w = Raise SystemExit /\
     exists before,
       events_of run w = before ++ [AlertShown c (Raise SystemExit)] /\
       (AlertShown c (Raise SystemExit) ∉ before) /\
       TransactionCommit ∉ before) /\
  (forall h view ts covered total idx el w category,
     reaches_prompt h view ts covered el category w ->
     user_approves (forms_alert h (alerts w) category) ->
     cat_Id category
       ∈ ignored_tag_types (world_after (guarded_element h view ts covered total idx el) w)) /\
  (forall h selected_views selected_elements w c ans,
     c ∈ ignored_tag_types w ->
     (AlertShown c ans ∉ events_of (for_each_view h selected_views selected_elements) w) /\
     c ∈ ignored_tag_types
           (world_after (for_each_view h selected_views selected_elements) w)) /\
  (forall h view ts covered total idx elements w c ans,
     c ∈ ignored_tag_types w ->
     (AlertShown c ans ∉ events_of (element_loop h view ts covered total idx elements) w) /\
     c ∈ ignored_tag_types
           (world_after (element_loop h view ts covered total idx elements) w)).
Proof.
  split; [|split; [|split; [|split; [|split]]]].
  - intros h view ts covered total idx el w category Hpath.
    pose proof (pass_to_prompt h view ts covered total idx el category w Hpath) as Hpass.
    destruct (forms_alert h (alerts w) category) as [a|[msg|]] eqn:Ha.
    + destruct (answer_is a "No") eqn:Hno.
      * exists []. apply (events_of_spec _ _ _ _ _ Hpass). simpl. by rewrite Ha.
      * by apply (pass_approved h view ts covered total idx el category w a).
    + eexists. apply (events_of_spec _ _ _ _ _ Hpass). simpl.
      by rewrite <- app_assoc, Ha.
    + exists []. apply (events_of_spec _ _ _ _ _ Hpass). simpl. by rewrite Ha.
  - intros h view ts covered total idx el rest w category Hpath Ha loop. subst loop.
    unfold user_declines in Ha.
    pose proof (pass_to_prompt h view ts covered total idx el category w Hpath) as Hpass.
    rewrite Ha in Hpass.
    assert (element_loop h view ts covered total idx (el :: rest) w
            = (Raise SystemExit, asked h total idx category w)) as Hloop.
    { simpl. unfold bind. by rewrite Hpass. }
    rewrite (result_of_eq _ _ _ _ Hloop), (world_after_eq _ _ _ _ Hloop).
    split; [done|]. split; [|done].
    apply (events_of_spec _ _ _ _ _ Hloop). simpl. by rewrite Ha.
  - intros h selected_views selected_elements w c run He. subst run.
    pose proof (run_eq (tag_elements_in_selected_views h selected_views
                          selected_elements) w) as Hrun.
    destruct (driver_exit _ _ _ _ _ _ Hrun) as (new & Hc & Hlast & Hopen).
    rewrite (events_of_spec _ _ _ _ _ Hrun Hc) in He |- *.
    apply elem_of_cons in He as [He|He]; [done|].
    destruct Hlast as [Hno|(Hr & before & e & -> & Hex & Hno)].
    { rewrite Forall_forall in Hno. by apply Hno in He. }
    split; [done|].
    assert (e = AlertShown c (Raise SystemExit)) as ->.
    { apply elem_of_app in He as [He|He].
      - rewrite Forall_forall in Hno. by apply Hno in He.
      - by apply list_elem_of_singleton in He. }
    exists (TransactionStart :: before). split; [done|].
    destruct (Hopen Hr) as (_ & Hnt). apply Forall_app in Hnt as [Hnt _].
    split.
    + intros Hin. apply elem_of_cons in Hin as [Hin|Hin]; [done|].
      rewrite Forall_forall in Hno. by apply Hno in Hin.
    + intros Hin. apply elem_of_cons in Hin as [Hin|Hin]; [done|].
      rewrite Forall_forall in Hnt. by apply Hnt in Hin.
  - intros h view ts covered total idx el w category Hpath Ha.
    by apply (pass_approved h view ts covered total idx el category w (AnsBool true)).
  - intros h selected_views selected_elements w c ans Hc.
    pose proof (run_eq (for_each_view h selected_views selected_elements) w) as Hrun.
    destruct (for_each_view_approved _ _ _ _ _ _ Hrun) as (new & Hch & Hsub & Hq).
    rewrite (events_of_spec _ _ _ _ _ Hrun Hch). split; [by apply Hq | by apply Hsub].
  - intros h view ts covered total idx elements w c ans Hc.
    pose proof (run_eq (element_loop h view ts covered total idx elements) w) as Hrun.
    destruct (element_loop_approved _ _ _ _ _ _ _ _ _ _ Hrun) as (new & Hch & Hsub & Hq).
    rewrite (events_of_spec _ _ _ _ _ Hrun Hch). split; [by apply Hq | by apply Hsub].
Qed.

Lemma prompt_for_unloaded_category_witness :
  (exists more,
     events_of (guarded_element ex_exit_host ex_level1 ex_all_on ∅ 2 0 ex_window) ex_world
     = UpdateProgress 0 2
         :: AlertShown 20 (forms_alert ex_exit_host (alerts ex_world) ex_windows) :: more) /\
  (result_of (element_loop ex_exit_host ex_level1 ex_all_on ∅ 2 0
                           [ex_window; ex_door1]) ex_world = Raise SystemExit /\
   events_of (element_loop ex_exit_host ex_level1 ex_all_on ∅ 2 0
                           [ex_window; ex_door1]) ex_world
   = [UpdateProgress 0 2; AlertShown 20 (Raise SystemExit)] /\
   ignored_tag_types
     (world_after (element_loop ex_exit_host ex_level1 ex_all_on ∅ 2 0
                                [ex_window; ex_door1]) ex_world)
   = ignored_tag_types ex_world) /\
  (result_of (tag_elements_in_selected_views ex_exit_host [ex_level1; ex_level2]
                ex_elements) ex_world = Raise SystemExit /\
   exists before,
     events_of (tag_elements_in_selected_views ex_exit_host [ex_level1; ex_level2]
                  ex_elements) ex_world
     = before ++ [AlertShown 20 (Raise SystemExit)] /\
     (AlertShown 20 (Raise SystemExit) ∉ before) /\
     TransactionCommit ∉ before) /\
  20 ∈ ignored_tag_types
         (world_after (guarded_element ex_approve_host ex_level1 ex_all_on ∅ 2 0 ex_window)
                      ex_world).
Proof.
  destruct prompt_for_unloaded_category
    as (Hprompted & Hdeclined & Haborted & Happroved & _).
  assert (forall h, is_tag_type_loaded h 20 = false ->
                    reaches_prompt h ex_level1 ex_all_on ∅ ex_window ex_windows ex_world)
    as Hpath.
  { intros h Hh. split; [apply not_elem_of_empty|]. split; [reflexivity|].
    split; [reflexivity|]. split; [exact Hh|]. apply not_elem_of_empty. }
  split; [|split; [|split]].
  - apply (Hprompted ex_exit_host ex_level1 ex_all_on ∅ 2%nat 0%nat ex_window ex_world
                     ex_windows). by apply Hpath.
  - apply (Hdeclined ex_exit_host ex_level1 ex_all_on ∅ 2%nat 0%nat ex_window [ex_door1]
                     ex_world ex_windows); [by apply Hpath | reflexivity].
  - apply (Haborted ex_exit_host [ex_level1; ex_level2] ex_elements ex_world 20).
    in_list.
  - apply (Happroved ex_approve_host ex_level1 ex_all_on ∅ 2%nat 0%nat ex_window ex_world
                     ex_windows); [by apply Hpath | reflexivity].
Defined.
